(** * MAVLink -> MQTT bridge (mav-to-mqtt.py): model and properties

    A shallow embedding of [build_telemetry_from_msg], of the reader and
    publisher loops of [bridge_loop], and of [read_password] / [main].

    Python objects are modelled by the inductive [value]; floats are IEEE
    binary64 numbers (Rocq's primitive floats), integers are unbounded ([Z]),
    dictionaries are finite maps from strings ([gmap string value]), and
    exceptions are explicit ([result]).  The wall clock ([time.time()]) and
    the telemetry link ([mav.recv_match]) are inputs of the step functions.

    The reader thread and the publish loop are modelled as two step
    functions on the variables they share; a run of the bridge is a sequence
    of iterations of the one or the other, each taken as atomic. *)

From Stdlib Require Import ZArith Floats Lia.
From stdpp Require Import gmap strings list fin_maps pretty sorting.

Set Warnings "-inexact-float".
Open Scope Z_scope.

(** ** Python values and exceptions *)

Inductive value : Type :=
  | VNone
  | VBool (b : bool)
  | VInt (z : Z)
  | VFloat (f : float)
  | VStr (s : string).

Inductive exn : Type :=
  | AttributeError
  | TypeError
  | OverflowError
  | ZeroDivisionError.

Inductive result (A : Type) : Type :=
  | Ok (a : A)
  | Raise (e : exn).
Arguments Ok {A} a.
Arguments Raise {A} e.

#[global] Instance result_ret : MRet result := λ A a, Ok a.
#[global] Instance result_bind : MBind result := λ A B k r,
  match r with
  | Ok a => k a
  | Raise e => Raise e
  end.
#[global] Instance result_fmap : FMap result := λ A B g r,
  match r with
  | Ok a => Ok (g a)
  | Raise e => Raise e
  end.

(** [v is not None] *)
Definition is_not_none (v : value) : bool :=
  match v with
  | VNone => false
  | _ => true
  end.

#[global] Instance value_none_dec (v : value) : Decision (v = VNone).
Proof. destruct v; (left; reflexivity) || (right; discriminate). Defined.

Module Py.

(** [float(z)] for an [int]: round to nearest, ties to even; an integer
    whose rounding exceeds the largest finite double raises
    [OverflowError]. *)
Definition int_to_float (z : Z) : result float :=
  match binary_normalize 53 1024 z 0 false with
  | S754_infinity _ => Raise OverflowError
  | sf => Ok (SF2Prim sf)
  end.

(** The left operand of [v / d] as a double, where [d] is a float. *)
Definition to_float (v : value) : result float :=
  match v with
  | VFloat f => Ok f
  | VInt z => int_to_float z
  | VBool b => Ok (if b then 1%float else 0%float)
  | VNone | VStr _ => Raise TypeError
  end.

(** [v / d] with a float right operand. *)
Definition truediv (v : value) (d : float) : result float :=
  a ← to_float v;
  if PrimFloat.eqb d 0%float then Raise ZeroDivisionError
  else Ok (PrimFloat.div a d).

(** [max(a, b)] on floats: the later argument wins only if it is greater. *)
Definition max (a b : float) : float :=
  if PrimFloat.ltb a b then b else a.

(** [d.update(kvs)] for a list of key/value pairs, in order. *)
Definition update (d : gmap string value) (kvs : list (string * value))
  : gmap string value :=
  foldl (λ acc kv, <[kv.1 := kv.2]> acc) d kvs.

(** [k in d] *)
Definition contains (k : string) (d : gmap string value) : bool :=
  match d !! k with
  | Some _ => true
  | None => false
  end.

(** [d.get(k, dflt)] *)
Definition get (d : gmap string value) (k : string) (dflt : value) : value :=
  default dflt (d !! k).

(** [bool(d)] for a dict *)
Definition truthy (d : gmap string value) : bool :=
  negb (bool_decide (d = ∅)).

End Py.

(** ** Raw telemetry events *)

(** A MAVLink message object: its type tag and its attributes. *)
Record msg : Type := Msg {
  msg_type : string;
  msg_attrs : gmap string value
}.

Definition get_type (m : msg) : string := msg_type m.

(** [msg.name]: raises [AttributeError] when the attribute is missing. *)
Definition attr (m : msg) (name : string) : result value :=
  match msg_attrs m !! name with
  | Some v => Ok v
  | None => Raise AttributeError
  end.

(** [getattr(msg, name, dflt)] *)
Definition getattr (m : msg) (name : string) (dflt : value) : value :=
  default dflt (msg_attrs m !! name).

(** ** MAVLink -> JSON builder *)

(** [getattr(msg, name, None) / d if getattr(msg, name, None) is not None
    else None] *)
Definition scaled_optional (m : msg) (name : string) (d : float)
  : result value :=
  if is_not_none (getattr m name VNone)
  then VFloat <$> Py.truediv (getattr m name VNone) d
  else Ok VNone.

(** The dict literal of the GLOBAL_POSITION_INT branch. *)
Definition position_fields (m : msg) : result (list (string * value)) :=
  lat ← attr m "lat" ≫= (λ v, Py.truediv v 1e7%float);
  lon ← attr m "lon" ≫= (λ v, Py.truediv v 1e7%float);
  alt ← attr m "alt" ≫= (λ v, Py.truediv v 1000%float);
  relative_alt ← scaled_optional m "relative_alt" 1000%float;
  hdg ← scaled_optional m "hdg" 100%float;
  mret [("lat", VFloat lat);
        ("lon", VFloat lon);
        ("alt", VFloat alt);
        ("relative_alt", relative_alt);
        ("vx", getattr m "vx" VNone);
        ("vy", getattr m "vy" VNone);
        ("vz", getattr m "vz" VNone);
        ("hdg", hdg)].

(** The dict literal of the VFR_HUD branch. *)
Definition hud_fields (m : msg) : result (list (string * value)) :=
  mret [("velocity", getattr m "vel" VNone);
        ("alt", getattr m "alt" VNone);
        ("airspeed", getattr m "airspeed" VNone);
        ("groundspeed", getattr m "groundspeed" VNone);
        ("throttle", getattr m "throttle" VNone)].

(** The dict literal of the GPS_RAW_INT branch. *)
Definition gps_fields (m : msg) : result (list (string * value)) :=
  lat ← attr m "lat" ≫= (λ v, Py.truediv v 1e7%float);
  lon ← attr m "lon" ≫= (λ v, Py.truediv v 1e7%float);
  alt ← attr m "alt" ≫= (λ v, Py.truediv v 1000%float);
  mret [("lat", VFloat lat);
        ("lon", VFloat lon);
        ("alt", VFloat alt);
        ("eph", getattr m "eph" VNone);
        ("epv", getattr m "epv" VNone)].

(** [{k: v for k, v in t.items() if v is not None}] *)
Definition remove_none (t : gmap string value) : gmap string value :=
  filter (λ kv, kv.2 ≠ VNone) t.

(** [try: t.update({...}) except Exception: return None], followed by the
    final normalisation. *)
Definition finish (t : gmap string value)
    (fields : result (list (string * value))) : option (gmap string value) :=
  match fields with
  | Ok kvs => Some (remove_none (Py.update t kvs))
  | Raise _ => None
  end.

Definition build_telemetry_from_msg (m : msg) (seq : Z) (now : float)
  : option (gmap string value) :=
  let t : gmap string value :=
    <["timestamp" := VFloat now]> (<["seq" := VInt seq]> ∅) in
  let mt := get_type m in
  if String.eqb mt "GLOBAL_POSITION_INT" then finish t (position_fields m)
  else if String.eqb mt "VFR_HUD" then finish t (hud_fields m)
  else if String.eqb mt "GPS_RAW_INT" then finish t (gps_fields m)
  else None.

(** ** The bounded queue ([queue.Queue]) *)

Section Queue.
Context {A : Type}.

(** [Queue(maxsize)]: the capacity and the items, oldest first.  A
    capacity that is not positive makes the queue unbounded. *)
Record Queue : Type := MkQueue {
  maxsize : Z;
  items : list A
}.

Definition qsize (q : Queue) : Z := Z.of_nat (length (items q)).

(** [q.put_nowait(x)]; [None] stands for the [Full] exception. *)
Definition put_nowait (q : Queue) (x : A) : option Queue :=
  if (0 <? maxsize q) && (maxsize q <=? qsize q) then None
  else Some (MkQueue (maxsize q) (items q ++ [x])).

(** [q.get_nowait()]; [None] stands for the [Empty] exception. *)
Definition get_nowait (q : Queue) : option (A * Queue) :=
  match items q with
  | [] => None
  | x :: rest => Some (x, MkQueue (maxsize q) rest)
  end.

(** The reader's push: try to put; on failure drop the oldest entry and
    put again; any failure of the second attempt is ignored. *)
Definition enqueue (q : Queue) (x : A) : Queue :=
  match put_nowait q x with
  | Some q' => q'
  | None =>
      match get_nowait q with
      | None => q
      | Some (_, q1) =>
          match put_nowait q1 x with
          | Some q2 => q2
          | None => q1
          end
      end
  end.

(** The states a queue created empty can reach. *)
Definition queue_ok (q : Queue) : Prop :=
  0 < maxsize q → qsize q <= maxsize q.

End Queue.
Arguments Queue A : clear implicits.

(** ** The bridge: reader and publisher loops *)

(** One result of [mav.recv_match(blocking=True, timeout=2)]: a timeout
    ([None]), a message (together with the clock reading taken while the
    record is built), or an exception. *)
Inductive recv_result : Type :=
  | RecvTimeout
  | RecvMsg (m : msg) (now : float)
  | RecvError (e : string).

(** A call of [mqttc.publish(topic, json.dumps(telemetry, ...))], with the
    clock reading [now] taken just before it. *)
Record publication : Type := Publication {
  pub_time : float;
  pub_topic : string;
  pub_record : gmap string value
}.

(** The variables shared by the closures of [bridge_loop], plus the
    observable outputs (publish calls and lines written to stderr). *)
Record bridge_state : Type := BridgeState {
  seq : Z;
  last_pub : float;
  out_queue : Queue (gmap string value);
  published : list publication;
  stderr : list string
}.

Definition set_seq (n : Z) (st : bridge_state) : bridge_state :=
  BridgeState n (last_pub st) (out_queue st) (published st) (stderr st).
Definition set_queue (q : Queue (gmap string value)) (st : bridge_state)
  : bridge_state :=
  BridgeState (seq st) (last_pub st) q (published st) (stderr st).
Definition log_error (line : string) (st : bridge_state) : bridge_state :=
  BridgeState (seq st) (last_pub st) (out_queue st) (published st)
              (stderr st ++ [line]).

(** [publish_interval = 1.0 / max(0.1, rate_hz)] *)
Definition publish_interval (rate_hz : float) : float :=
  PrimFloat.div 1%float (Py.max 0.1%float rate_hz).

Definition bridge_init (queue_size : Z) : bridge_state :=
  BridgeState 0 0%float (MkQueue queue_size []) [] [].

Section Bridge.
(** [x ** y] on floats is the platform's C [pow]; here the base is a sum
    of two squares (never negative), so the result is a float. *)
Variable float_pow : float → float → float.

(** The body of the velocity fallback's [try] block. *)
Definition synthesize_velocity (t : gmap string value)
  : result (gmap string value) :=
  vx ← Py.truediv (Py.get t "vx" (VInt 0)) 100%float;
  vy ← Py.truediv (Py.get t "vy" (VInt 0)) 100%float;
  let t1 :=
    <["velocity" :=
        VFloat (float_pow (PrimFloat.add (PrimFloat.mul vx vx)
                                         (PrimFloat.mul vy vy))
                          0.5%float)]> t in
  mret (delete "vy" (delete "vx" t1)).

(** Lines 193-201 of the reader. *)
Definition velocity_fallback (t : gmap string value) : gmap string value :=
  if negb (Py.contains "velocity" t)
     && (Py.contains "vx" t || Py.contains "vy" t)
  then
    match synthesize_velocity t with
    | Ok t' => t'
    | Raise _ => t
    end
  else t.

(** One iteration of the reader's [while True] loop. *)
Definition reader_step (st : bridge_state) (r : recv_result) : bridge_state :=
  match r with
  | RecvTimeout => st
  | RecvError e => log_error ("[mav reader] error: " +:+ e) st
  | RecvMsg m now =>
      let st1 := set_seq (seq st + 1) st in
      match build_telemetry_from_msg m (seq st1) now with
      | Some telemetry =>
          if Py.truthy telemetry
          then set_queue (enqueue (out_queue st1) (velocity_fallback telemetry)) st1
          else st1
      | None => st1
      end
  end.

(** One iteration of the publish loop, run at clock reading [now] (the
    reading is only taken when a record was dequeued). *)
Definition publisher_step (topic : string) (rate_hz : float)
    (st : bridge_state) (now : float) : bridge_state :=
  match get_nowait (out_queue st) with
  | None => st
  | Some (telemetry, q) =>
      if PrimFloat.ltb (PrimFloat.sub now (last_pub st)) (publish_interval rate_hz)
      then set_queue q st
      else BridgeState (seq st) now q
                       (published st ++ [Publication now topic telemetry])
                       (stderr st)
  end.

(** The two loops interleaved: each event is one iteration of one loop. *)
Inductive event : Type :=
  | Reader (r : recv_result)
  | Publisher (now : float).

Definition bridge_step (topic : string) (rate_hz : float)
    (st : bridge_state) (ev : event) : bridge_state :=
  match ev with
  | Reader r => reader_step st r
  | Publisher now => publisher_step topic rate_hz st now
  end.

Definition bridge_run (topic : string) (rate_hz : float)
    (st : bridge_state) (evs : list event) : bridge_state :=
  foldl (bridge_step topic rate_hz) st evs.

Definition reader_run (st : bridge_state) (rs : list recv_result)
  : bridge_state :=
  foldl reader_step st rs.

End Bridge.

(** ** Command line: [read_password] and [main] *)

Module CLI.

(** The parsed arguments ([argparse] namespace). *)
Record args : Type := Args {
  mav : string;
  mqtt_host : string;
  mqtt_port : Z;
  mqtt_user : option string;
  mqtt_pass_file : option string;
  tls_ca : option string;
  tls_cert : option string;
  tls_key : option string;
  topic : string;
  rate : float;
  queue_size : Z
}.

(** The outcome of [open(path, "r")] followed by [f.read().strip()]: the
    stripped text, or the exception that was raised. *)
Inductive file_read : Type :=
  | FileText (content : string)
  | FileError (e : string).

(** The [mqtt_cfg] dict built by [main]. *)
Record mqtt_cfg : Type := MqttCfg {
  host : string;
  port : Z;
  username : option string;
  password : option string;
  cfg_tls_ca : option string;
  cfg_tls_cert : option string;
  cfg_tls_key : option string
}.

(** The arguments of a call of [bridge_loop]. *)
Record bridge_call : Type := BridgeCall {
  call_mav : string;
  call_cfg : mqtt_cfg;
  call_topic : string;
  call_rate : float;
  call_queue_size : Z
}.

(** How a call of [bridge_loop] ends, if it does: it returns (after an
    interrupt) or raises. *)
Inductive bridge_outcome : Type :=
  | BridgeReturns
  | BridgeRaises (e : string).

(** What [main] does: the lines it writes to stderr, the calls of
    [bridge_loop] it makes, and its exit status, if it exits through
    [sys.exit]. *)
Record main_outcome : Type := MainOutcome {
  out_stderr : list string;
  bridge_calls : list bridge_call;
  exit_code : option Z
}.

(** [read_password]: the password and the lines written to stderr. *)
Definition read_password (fs : string → file_read) (file_path : option string)
  : option string * list string :=
  match file_path with
  | None => (None, [])
  | Some path =>
      if String.eqb path "" then (None, [])
      else
        match fs path with
        | FileText content => (Some content, [])
        | FileError e =>
            (None, ["[args] failed reading password file: " +:+ e])
        end
  end.

Definition main (fs : string → file_read)
    (bridge_loop : bridge_call → bridge_outcome) (a : args) : main_outcome :=
  let '(mqtt_password, errs) := read_password fs (mqtt_pass_file a) in
  let cfg := MqttCfg (mqtt_host a) (mqtt_port a) (mqtt_user a) mqtt_password
                     (tls_ca a) (tls_cert a) (tls_key a) in
  let call := BridgeCall (mav a) cfg (topic a) (rate a) (queue_size a) in
  match bridge_loop call with
  | BridgeReturns => MainOutcome errs [call] None
  | BridgeRaises e =>
      MainOutcome (errs ++ ["[main] fatal error: " +:+ e]) [call] (Some 1)
  end.

(** The second usage example of the module docstring. *)
Definition example_args : args :=
  Args "udp:127.0.0.1:14550" "cloud.example.com" 1883 (Some "drone")
       (Some "./secrets/mqtt_pass.txt") None None None
       "drone/telemetry" 5%float 200.

Definition missing_file (path : string) : file_read :=
  FileError "[Errno 2] No such file or directory".

End CLI.

(** ** MQTT helper: the [MQTTClient] class *)

Module MQTT.

(** A call made on the paho client object. *)
Inductive client_call : Type :=
  | NewClient (client_id : string)
  | UsernamePwSet (username : string) (password : option string)
  | TlsSet (ca_certs : string) (certfile keyfile : option string)
  | Publish (topic payload : string) (qos : Z).

(** An [MQTTClient] object: its attributes, the [_connected] event, and
    what it did so far (calls on the paho client, lines printed). *)
Record MQTTClient : Type := MkClient {
  host : string;
  port : Z;
  username : option string;
  password : option string;
  tls_ca : option string;
  tls_cert : option string;
  tls_key : option string;
  connected : bool;
  stop_flag : bool;
  calls : list client_call;
  stdout : list string;
  stderr : list string
}.

(** Truth value of an optional string argument: [None] and the empty
    string are false. *)
Definition given (o : option string) : bool :=
  match o with
  | Some s => negb (String.eqb s "")
  | None => false
  end.

(** [MQTTClient.__init__] *)
Definition init (host : string) (port : Z)
    (username password tls_ca tls_cert tls_key : option string)
    (client_id : string) : MQTTClient :=
  let c0 := [NewClient client_id] in
  let c1 := if given username
            then c0 ++ [UsernamePwSet (default "" username) password]
            else c0 in
  let c2 := if given tls_ca
            then c1 ++ [TlsSet (default "" tls_ca) tls_cert tls_key]
            else c1 in
  MkClient host port username password tls_ca tls_cert tls_key
           false false c2 [] [].

Definition set_connected (b : bool) (c : MQTTClient) : MQTTClient :=
  MkClient (host c) (port c) (username c) (password c) (tls_ca c)
           (tls_cert c) (tls_key c) b (stop_flag c) (calls c) (stdout c)
           (stderr c).
Definition print (line : string) (c : MQTTClient) : MQTTClient :=
  MkClient (host c) (port c) (username c) (password c) (tls_ca c)
           (tls_cert c) (tls_key c) (connected c) (stop_flag c) (calls c)
           (stdout c ++ [line]) (stderr c).
Definition print_err (line : string) (c : MQTTClient) : MQTTClient :=
  MkClient (host c) (port c) (username c) (password c) (tls_ca c)
           (tls_cert c) (tls_key c) (connected c) (stop_flag c) (calls c)
           (stdout c) (stderr c ++ [line]).
Definition call (k : client_call) (c : MQTTClient) : MQTTClient :=
  MkClient (host c) (port c) (username c) (password c) (tls_ca c)
           (tls_cert c) (tls_key c) (connected c) (stop_flag c)
           (calls c ++ [k]) (stdout c) (stderr c).

(** [on_connect(client, userdata, flags, rc)] *)
Definition on_connect (c : MQTTClient) (rc : Z) : MQTTClient :=
  if rc =? 0 then set_connected true (print "[mqtt] connected" c)
  else print ("[mqtt] connect failed rc=" +:+ pretty rc) c.

(** [on_disconnect(client, userdata, rc)] *)
Definition on_disconnect (c : MQTTClient) (rc : Z) : MQTTClient :=
  set_connected false (print "[mqtt] disconnected" c).

(** A callback run by the network loop. *)
Inductive callback : Type :=
  | OnConnect (rc : Z)
  | OnDisconnect (rc : Z).

Definition run_callback (c : MQTTClient) (cb : callback) : MQTTClient :=
  match cb with
  | OnConnect rc => on_connect c rc
  | OnDisconnect rc => on_disconnect c rc
  end.

(** The outcome of [self._connected.wait(timeout=2.0)] on an event that
    is not set: [on_connect] ran with [rc = 0] before the timeout (the only
    place the event is set), or the wait timed out. *)
Inductive wait_result : Type :=
  | ConnectedInTime
  | WaitTimedOut.

(** [publish(topic, payload, qos)]; [error] is the exception the paho
    client's [publish] raises, if it does. *)
Definition publish (c : MQTTClient) (w : wait_result) (topic payload : string)
    (qos : Z) (error : option string) : MQTTClient :=
  let c1 :=
    if connected c then c
    else
      match w with
      | ConnectedInTime => on_connect c 0
      | WaitTimedOut =>
          print "[mqtt] warning: not connected, publishing will queue locally" c
      end in
  let c2 := call (Publish topic payload qos) c1 in
  match error with
  | None => c2
  | Some e => print_err ("[mqtt] publish exception: " +:+ e) c2
  end.

(** The [MQTTClient] that [bridge_loop] builds from the [mqtt_cfg] dict
    passed by [main] (its entries are the keyword arguments; [client_id]
    takes its default). *)
Definition of_cfg (cfg : CLI.mqtt_cfg) : MQTTClient :=
  init (CLI.host cfg) (CLI.port cfg) (CLI.username cfg) (CLI.password cfg)
       (CLI.cfg_tls_ca cfg) (CLI.cfg_tls_cert cfg) (CLI.cfg_tls_key cfg)
       "mav_to_mqtt".

End MQTT.

(** * Vocabulary of the properties *)

(** The position event of the scaling scenario. *)
Definition scenario_msg : msg :=
  Msg "GLOBAL_POSITION_INT"
      (<["lat" := VInt 473397000]> (<["lon" := VInt 85550500]>
       (<["alt" := VInt 500000]> (<["relative_alt" := VInt 10000]> ∅)))).

(** A GLOBAL_POSITION_INT event whose [vx] is not a number. *)
Definition text_vx_msg : msg :=
  Msg "GLOBAL_POSITION_INT"
      (<["lat" := VInt 473397000]> (<["lon" := VInt 85550500]>
       (<["alt" := VInt 500000]> (<["vx" := VStr "fast"]>
       (<["vy" := VInt 300]> ∅))))).

(** A VFR_HUD event with a ground speed. *)
Definition hud_msg : msg :=
  Msg "VFR_HUD" (<["groundspeed" := VFloat 12.5]> ∅).

(** Two events arrive, then the publish loop runs at [t0] and at [t0 + 10]
    with a configured rate of 0.05 Hz. *)
Definition slow_rate_run : list event :=
  [Reader (RecvMsg hud_msg 1700000000%float);
   Reader (RecvMsg hud_msg 1700000000%float);
   Publisher 1700000000%float;
   Publisher 1700000010%float].

(** A GLOBAL_POSITION_INT event of a vehicle moving at 3 m/s north and
    4 m/s east, sinking at 0.5 m/s, heading 90 degrees. *)
Definition moving_msg : msg :=
  Msg "GLOBAL_POSITION_INT"
      (<["lat" := VInt 473397000]> (<["lon" := VInt 85550500]>
       (<["alt" := VInt 500000]> (<["vx" := VInt 300]>
       (<["vy" := VInt 400]> (<["vz" := VInt 50]>
       (<["hdg" := VInt 9000]> ∅))))))).

(** An event of a type the bridge does not forward. *)
Definition heartbeat_msg : msg := Msg "HEARTBEAT" ∅.

(** A timeout, a heartbeat and a link error seen by the reader. *)
Definition mixed_results : list recv_result :=
  [RecvTimeout; RecvMsg heartbeat_msg 1700000000%float; RecvError "timed out"].

(** Three events arrive, then the publish loop runs at [t0], [t0 + 0.125]
    and [t0 + 0.625] with a configured rate of 2 Hz. *)
Definition two_hz_run : list event :=
  [Reader (RecvMsg hud_msg 1700000000%float);
   Reader (RecvMsg hud_msg 1700000000%float);
   Reader (RecvMsg hud_msg 1700000000%float);
   Publisher 1700000000%float;
   Publisher 1700000000.125%float;
   Publisher 1700000000.625%float].

(** An instance of the power operator for the examples: with the exponent
    0.5 it is the square root. *)
Definition sqrt_pow (x y : float) : float := PrimFloat.sqrt x.

(** The record [build_telemetry_from_msg] makes of [text_vx_msg] (the
    empty dict would stand for "no record"). *)
Definition text_vx_record : gmap string value :=
  default ∅ (build_telemetry_from_msg text_vx_msg 1 1700000000%float).

(** The record [build_telemetry_from_msg] makes of [moving_msg]. *)
Definition moving_record : gmap string value :=
  default ∅ (build_telemetry_from_msg moving_msg 1 1700000000%float).

(** The bridge after [slow_rate_run], from an empty queue of capacity
    200. *)
Definition slow_rate_final : bridge_state :=
  bridge_run sqrt_pow "drone/telemetry" 0.05%float (bridge_init 200)
             slow_rate_run.

(** The bridge after [two_hz_run], from an empty queue of capacity 200. *)
Definition two_hz_final : bridge_state :=
  bridge_run sqrt_pow "drone/telemetry" 2%float (bridge_init 200) two_hz_run.

(** The reader after 250 events, with a queue of capacity 200 that is not
    drained. *)
Definition fed_250 : bridge_state :=
  reader_run sqrt_pow (bridge_init 200)
             (replicate 250 (RecvMsg hud_msg 1700000000%float)).

(** The [seq] fields of the queued records, oldest first. *)
Definition queued_seqs (st : bridge_state) : list (option value) :=
  (λ r : gmap string value, r !! "seq") <$> items (out_queue st).

(** The three recognised type tags. *)
Definition recognized (mt : string) : Prop :=
  mt = "GLOBAL_POSITION_INT" ∨ mt = "VFR_HUD" ∨ mt = "GPS_RAW_INT".

(** A raw value that float division accepts as its left operand. *)
Definition convertible (v : value) : Prop :=
  ∃ a, Py.to_float v = Ok a.

(** Extraction of a mandatory scaled field fails: the attribute is missing
    or its value cannot be divided. *)
Definition required_fails (m : msg) (name : string) : Prop :=
  match msg_attrs m !! name with
  | None => True
  | Some v => ¬ convertible v
  end.

(** Extraction of an optional scaled field fails: the attribute is there,
    is not [None], and cannot be divided. *)
Definition optional_fails (m : msg) (name : string) : Prop :=
  match msg_attrs m !! name with
  | None | Some VNone => False
  | Some v => ¬ convertible v
  end.

Definition extraction_fails (m : msg) : Prop :=
  (get_type m = "GLOBAL_POSITION_INT" ∧
   (required_fails m "lat" ∨ required_fails m "lon" ∨ required_fails m "alt" ∨
    optional_fails m "relative_alt" ∨ optional_fails m "hdg")) ∨
  (get_type m = "GPS_RAW_INT" ∧
   (required_fails m "lat" ∨ required_fails m "lon" ∨ required_fails m "alt")).

(** The optional fields of each event type: output key and source
    attribute. *)
Definition optional_fields (mt : string) : list (string * string) :=
  if String.eqb mt "GLOBAL_POSITION_INT" then
    [("relative_alt", "relative_alt"); ("vx", "vx"); ("vy", "vy");
     ("vz", "vz"); ("hdg", "hdg")]
  else if String.eqb mt "VFR_HUD" then
    [("velocity", "vel"); ("alt", "alt"); ("airspeed", "airspeed");
     ("groundspeed", "groundspeed"); ("throttle", "throttle")]
  else if String.eqb mt "GPS_RAW_INT" then
    [("eph", "eph"); ("epv", "epv")]
  else [].

(** The value a list of key/value pairs binds to [k] last, if any. *)
Fixpoint assoc_last (k : string) (kvs : list (string * value)) : option value :=
  match kvs with
  | [] => None
  | kv :: rest =>
      match assoc_last k rest with
      | Some v => Some v
      | None => if decide (k = kv.1) then Some kv.2 else None
      end
  end.

(** A result of [recv_match] that is a raw event (a message). *)
Definition is_event (r : recv_result) : bool :=
  match r with
  | RecvMsg _ _ => true
  | _ => false
  end.

(** Number of raw events among the results of [recv_match]. *)
Definition observed (rs : list recv_result) : Z :=
  Z.of_nat (length (filter (λ r, is_event r) rs)).

(** The clock readings of two publishes are at least [interval] apart, as
    the loop measures it. *)
Definition spaced (interval : float) (p1 p2 : publication) : Prop :=
  PrimFloat.ltb (PrimFloat.sub (pub_time p2) (pub_time p1)) interval = false.

(** [last_pub] is the clock reading of the latest publish, and consecutive
    publishes are spaced by the interval. *)
Definition publisher_inv (interval : float) (st : bridge_state) : Prop :=
  (∀ p, last (published st) = Some p → pub_time p = last_pub st) ∧
  (∀ i p1 p2, published st !! i = Some p1 → published st !! S i = Some p2 →
              spaced interval p1 p2).

(** A GPS_RAW_INT event with error estimates. *)
Definition gps_msg : msg :=
  Msg "GPS_RAW_INT"
      (<["lat" := VInt 473397000]> (<["lon" := VInt 85550500]>
       (<["alt" := VInt 500000]> (<["eph" := VInt 120]>
       (<["epv" := VInt 200]> ∅))))).

(** The fields copied from the message as they are: output key and
    source attribute, by event type. *)
Definition passthrough_fields (mt : string) : list (string * string) :=
  if String.eqb mt "GLOBAL_POSITION_INT" then
    [("vx", "vx"); ("vy", "vy"); ("vz", "vz")]
  else if String.eqb mt "VFR_HUD" then
    [("velocity", "vel"); ("alt", "alt"); ("airspeed", "airspeed");
     ("groundspeed", "groundspeed"); ("throttle", "throttle")]
  else if String.eqb mt "GPS_RAW_INT" then
    [("eph", "eph"); ("epv", "epv")]
  else [].

(** The keys a record of each event type can have. *)
Definition record_keys (mt : string) : list string :=
  ["seq"; "timestamp"] ++
  (if String.eqb mt "GLOBAL_POSITION_INT" then
     ["lat"; "lon"; "alt"; "relative_alt"; "vx"; "vy"; "vz"; "hdg"]
   else if String.eqb mt "VFR_HUD" then
     ["velocity"; "alt"; "airspeed"; "groundspeed"; "throttle"]
   else if String.eqb mt "GPS_RAW_INT" then
     ["lat"; "lon"; "alt"; "eph"; "epv"]
   else []).

(** The record the reader enqueues for a result of [recv_match], when the
    counter is [n] before it; [None] when it enqueues nothing. *)
Definition reader_record (float_pow : float → float → float) (n : Z)
    (r : recv_result) : option (gmap string value) :=
  match r with
  | RecvMsg m now =>
      match build_telemetry_from_msg m (n + 1) now with
      | Some t => if Py.truthy t then Some (velocity_fallback float_pow t)
                  else None
      | None => None
      end
  | _ => None
  end.

(** The records the reader enqueues during a run of the bridge, in
    order. *)
Fixpoint accepted (float_pow : float → float → float) (topic : string)
    (rate_hz : float) (st : bridge_state) (evs : list event)
  : list (gmap string value) :=
  match evs with
  | [] => []
  | ev :: rest =>
      match ev with
      | Reader r => option_list (reader_record float_pow (seq st) r)
      | Publisher _ => []
      end
      ++ accepted float_pow topic rate_hz
           (bridge_step float_pow topic rate_hz st ev) rest
  end.

(** The [recv_match] results among the events of a run. *)
Definition reader_results (evs : list event) : list recv_result :=
  omap (λ ev, match ev with Reader r => Some r | Publisher _ => None end) evs.

(** The messages of the link errors among the results of [recv_match]. *)
Definition link_errors (rs : list recv_result) : list string :=
  omap (λ r, match r with RecvError e => Some e | _ => None end) rs.

(** The [seq] field of a record (0 if there is none). *)
Definition record_seq (r : gmap string value) : Z :=
  match r !! "seq" with
  | Some (VInt z) => z
  | _ => 0
  end.

(** The records the bridge holds or has handed to the sink: those
    published, oldest first, followed by those waiting in the queue. *)
Definition held (st : bridge_state) : list (gmap string value) :=
  (pub_record <$> published st) ++ items (out_queue st).

(** No [on_disconnect] among the callbacks. *)
Definition no_disconnect (cbs : list MQTT.callback) : Prop :=
  ∀ rc, MQTT.OnDisconnect rc ∉ cbs.

(** * Properties *)

(** ** Normalisation *)

Lemma update_lookup kvs : ∀ (t : gmap string value) k,
  Py.update t kvs !! k = match assoc_last k kvs with
                         | Some v => Some v
                         | None => t !! k
                         end.
Proof.
  induction kvs as [| [k' v'] rest IH]; intros t k; [done |].
  unfold Py.update in *. cbn [foldl assoc_last fst snd]. rewrite IH.
  destruct (assoc_last k rest); [done |].
  destruct (decide (k = k')) as [-> | Hne].
  - apply lookup_insert_eq.
  - by apply lookup_insert_ne.
Qed.

(** Evaluate a lookup in a dict updated by a literal list of pairs. *)
Ltac update_lookup :=
  rewrite update_lookup;
  match goal with
  | |- context [assoc_last ?k ?kvs] =>
      let r := eval vm_compute in (assoc_last k kvs) in
      change (assoc_last k kvs) with r
  end;
  cbv beta iota.

Lemma remove_none_lookup (t : gmap string value) k v :
  remove_none t !! k = Some v ↔ t !! k = Some v ∧ v ≠ VNone.
Proof. unfold remove_none. by rewrite map_lookup_filter_Some. Qed.

Lemma remove_none_lookup_None (t : gmap string value) k :
  remove_none t !! k = None ↔ t !! k = None ∨ t !! k = Some VNone.
Proof.
  unfold remove_none. rewrite map_lookup_filter_None. split.
  - intros [H | H]; [by left |].
    destruct (t !! k) as [v |] eqn:E; [| by left].
    right. f_equal. destruct (decide (v = VNone)) as [-> | Hn]; [done |].
    by destruct (H v).
  - intros [H | H]; [by left |]. right. intros v Hv Hn. simpl in Hn. congruence.
Qed.

Lemma truediv_ok_inv v d f :
  Py.truediv v d = Ok f →
  ∃ a, Py.to_float v = Ok a ∧ PrimFloat.eqb d 0%float = false
       ∧ f = PrimFloat.div a d.
Proof.
  unfold Py.truediv. destruct (Py.to_float v) as [a | e]; simpl; [| done].
  destruct (PrimFloat.eqb d 0%float); [done |].
  intros [= <-]. by exists a.
Qed.

Lemma truediv_ok_iff v d :
  PrimFloat.eqb d 0%float = false →
  (∃ f, Py.truediv v d = Ok f) ↔ convertible v.
Proof.
  intros Hd. unfold convertible, Py.truediv. split.
  - intros [f Hf]. destruct (Py.to_float v) as [a | e]; [by exists a | done].
  - intros [a ->]. simpl. rewrite Hd. by eexists.
Qed.

Lemma required_ok m name d f :
  (attr m name ≫= (λ v, Py.truediv v d)) = Ok f →
  ∃ v, msg_attrs m !! name = Some v ∧ Py.truediv v d = Ok f.
Proof.
  unfold attr. destruct (msg_attrs m !! name) as [v |]; [| done].
  intros H. by exists v.
Qed.

Lemma required_raise_iff m name d :
  PrimFloat.eqb d 0%float = false →
  (∃ e, (attr m name ≫= (λ v, Py.truediv v d)) = Raise e) ↔ required_fails m name.
Proof.
  intros Hd. unfold attr, required_fails.
  destruct (msg_attrs m !! name) as [v |]; simpl.
  - rewrite <- (truediv_ok_iff v d Hd). split.
    + intros [e He] [f Hf]. congruence.
    + intros Hn. destruct (Py.truediv v d) as [f | e]; [| by exists e].
      destruct Hn. by exists f.
  - split; [done |]. intros _. by eexists.
Qed.

Lemma optional_ok m name d w :
  scaled_optional m name d = Ok w →
  (getattr m name VNone = VNone ∧ w = VNone) ∨
  (∃ v q, msg_attrs m !! name = Some v ∧ v ≠ VNone ∧
          Py.truediv v d = Ok q ∧ w = VFloat q).
Proof.
  unfold scaled_optional, getattr.
  destruct (msg_attrs m !! name) as [v |]; simpl.
  - destruct (is_not_none v) eqn:Hn.
    + destruct (Py.truediv v d) as [q | e] eqn:E; simpl; [| done].
      intros [= <-]. right. exists v, q. split_and!; try done.
      by intros ->.
    + destruct v; try done. intros [= <-]. by left.
  - intros [= <-]. by left.
Qed.

Lemma optional_raise_iff m name d :
  PrimFloat.eqb d 0%float = false →
  (∃ e, scaled_optional m name d = Raise e) ↔ optional_fails m name.
Proof.
  intros Hd. unfold scaled_optional, getattr, optional_fails.
  destruct (msg_attrs m !! name) as [v |]; simpl;
    [| split; [by intros [? ?] | done]].
  destruct (is_not_none v) eqn:Hn.
  - assert (Hgoal : (∃ e, VFloat <$> Py.truediv v d = Raise e) ↔ ¬ convertible v).
    { rewrite <- (truediv_ok_iff v d Hd).
      destruct (Py.truediv v d) as [q | e]; simpl.
      - split; [by intros [? ?] | intros H; destruct H; by eexists].
      - split; [intros _ [? ?]; congruence | intros _; by eexists]. }
    by destruct v.
  - destruct v; try done. split; [by intros [? ?] | done].
Qed.

Lemma position_fields_ok m kvs :
  position_fields m = Ok kvs →
  ∃ lat lon alt ra hdg,
    (attr m "lat" ≫= (λ v, Py.truediv v 1e7%float)) = Ok lat ∧
    (attr m "lon" ≫= (λ v, Py.truediv v 1e7%float)) = Ok lon ∧
    (attr m "alt" ≫= (λ v, Py.truediv v 1000%float)) = Ok alt ∧
    scaled_optional m "relative_alt" 1000%float = Ok ra ∧
    scaled_optional m "hdg" 100%float = Ok hdg ∧
    kvs = [("lat", VFloat lat); ("lon", VFloat lon); ("alt", VFloat alt);
           ("relative_alt", ra); ("vx", getattr m "vx" VNone);
           ("vy", getattr m "vy" VNone); ("vz", getattr m "vz" VNone);
           ("hdg", hdg)].
Proof.
  unfold position_fields.
  destruct (attr m "lat" ≫= _) as [lat | ?]; simpl; [| done].
  destruct (attr m "lon" ≫= _) as [lon | ?]; simpl; [| done].
  destruct (attr m "alt" ≫= _) as [alt | ?]; simpl; [| done].
  destruct (scaled_optional m "relative_alt" _) as [ra | ?]; simpl; [| done].
  destruct (scaled_optional m "hdg" _) as [hdg | ?]; simpl; [| done].
  intros [= <-]. by exists lat, lon, alt, ra, hdg.
Qed.

Lemma gps_fields_ok m kvs :
  gps_fields m = Ok kvs →
  ∃ lat lon alt,
    (attr m "lat" ≫= (λ v, Py.truediv v 1e7%float)) = Ok lat ∧
    (attr m "lon" ≫= (λ v, Py.truediv v 1e7%float)) = Ok lon ∧
    (attr m "alt" ≫= (λ v, Py.truediv v 1000%float)) = Ok alt ∧
    kvs = [("lat", VFloat lat); ("lon", VFloat lon); ("alt", VFloat alt);
           ("eph", getattr m "eph" VNone); ("epv", getattr m "epv" VNone)].
Proof.
  unfold gps_fields.
  destruct (attr m "lat" ≫= _) as [lat | ?]; simpl; [| done].
  destruct (attr m "lon" ≫= _) as [lon | ?]; simpl; [| done].
  destruct (attr m "alt" ≫= _) as [alt | ?]; simpl; [| done].
  intros [= <-]. by exists lat, lon, alt.
Qed.

Lemma result_cases {A} (r : result A) : (∃ a, r = Ok a) ∨ (∃ e, r = Raise e).
Proof. destruct r; [left | right]; by eexists. Qed.

Lemma position_fields_raise_iff m :
  (∃ e, position_fields m = Raise e) ↔
  required_fails m "lat" ∨ required_fails m "lon" ∨ required_fails m "alt" ∨
  optional_fails m "relative_alt" ∨ optional_fails m "hdg".
Proof.
  rewrite <- (required_raise_iff m "lat" 1e7%float eq_refl),
    <- (required_raise_iff m "lon" 1e7%float eq_refl),
    <- (required_raise_iff m "alt" 1000%float eq_refl),
    <- (optional_raise_iff m "relative_alt" 1000%float eq_refl),
    <- (optional_raise_iff m "hdg" 100%float eq_refl).
  unfold position_fields.
  destruct (attr m "lat" ≫= _) as [lat | ?]; simpl;
    [| split; [intros _; left; by eexists | intros _; by eexists]].
  destruct (attr m "lon" ≫= _) as [lon | ?]; simpl;
    [| split; [intros _; right; left; by eexists | intros _; by eexists]].
  destruct (attr m "alt" ≫= _) as [alt | ?]; simpl;
    [| split; [intros _; do 2 right; left; by eexists | intros _; by eexists]].
  destruct (scaled_optional m "relative_alt" _) as [ra | ?]; simpl;
    [| split; [intros _; do 3 right; left; by eexists | intros _; by eexists]].
  destruct (scaled_optional m "hdg" _) as [hdg | ?]; simpl;
    [| split; [intros _; do 4 right; by eexists | intros _; by eexists]].
  split; [by intros [? ?] |].
  intros [[? ?] | [[? ?] | [[? ?] | [[? ?] | [? ?]]]]]; done.
Qed.

Lemma gps_fields_raise_iff m :
  (∃ e, gps_fields m = Raise e) ↔
  required_fails m "lat" ∨ required_fails m "lon" ∨ required_fails m "alt".
Proof.
  rewrite <- (required_raise_iff m "lat" 1e7%float eq_refl),
    <- (required_raise_iff m "lon" 1e7%float eq_refl),
    <- (required_raise_iff m "alt" 1000%float eq_refl).
  unfold gps_fields.
  destruct (attr m "lat" ≫= _) as [lat | ?]; simpl;
    [| split; [intros _; left; by eexists | intros _; by eexists]].
  destruct (attr m "lon" ≫= _) as [lon | ?]; simpl;
    [| split; [intros _; right; left; by eexists | intros _; by eexists]].
  destruct (attr m "alt" ≫= _) as [alt | ?]; simpl;
    [| split; [intros _; do 2 right; by eexists | intros _; by eexists]].
  split; [by intros [? ?] |].
  intros [[? ?] | [[? ?] | [? ?]]]; done.
Qed.

Lemma finish_None t r : finish t r = None ↔ ∃ e, r = Raise e.
Proof. destruct r; simpl; split; try done; [by intros [? ?] | by eexists]. Qed.

Lemma finish_Some t r t' :
  finish t r = Some t' ↔ ∃ kvs, r = Ok kvs ∧ t' = remove_none (Py.update t kvs).
Proof.
  destruct r as [kvs | e]; simpl; split.
  - intros [= <-]. by exists kvs.
  - by intros (? & [= <-] & ->).
  - done.
  - by intros (? & ? & _).
Qed.

(** The branch taken by [build_telemetry_from_msg], by type tag. *)
Lemma build_cases m seq now :
  let t := <["timestamp" := VFloat now]> (<["seq" := VInt seq]> ∅) in
  (get_type m = "GLOBAL_POSITION_INT" ∧
   build_telemetry_from_msg m seq now = finish t (position_fields m)) ∨
  (get_type m = "VFR_HUD" ∧
   build_telemetry_from_msg m seq now = finish t (hud_fields m)) ∨
  (get_type m = "GPS_RAW_INT" ∧
   build_telemetry_from_msg m seq now = finish t (gps_fields m)) ∨
  (¬ recognized (get_type m) ∧ build_telemetry_from_msg m seq now = None).
Proof.
  intros t. unfold build_telemetry_from_msg, recognized.
  destruct (String.eqb_spec (get_type m) "GLOBAL_POSITION_INT") as [E1 | N1];
    [by left |].
  destruct (String.eqb_spec (get_type m) "VFR_HUD") as [E2 | N2];
    [right; by left |].
  destruct (String.eqb_spec (get_type m) "GPS_RAW_INT") as [E3 | N3];
    [do 2 right; by left |].
  do 3 right. split; [| done]. by intros [? | [? | ?]].
Qed.

(** C1: for every GLOBAL_POSITION_INT event that
    [build_telemetry_from_msg] accepts, the record's [lat] and [lon] are the
    raw fields divided by 1e7, [alt] is the raw field divided by 1000,
    [relative_alt] (when the source field is present) is the raw field divided
    by 1000 and [hdg] (when present) is the raw field divided by 100; the
    event with lat=473397000, lon=85550500, alt=500000, relative_alt=10000
    yields lat=47.3397, lon=8.55505, alt=500.0, relative_alt=10.0. *)
Theorem position_scaling :
  (∀ m seq now t,
     get_type m = "GLOBAL_POSITION_INT" →
     build_telemetry_from_msg m seq now = Some t →
     (∃ v q, msg_attrs m !! "lat" = Some v ∧ Py.truediv v 1e7%float = Ok q ∧
             t !! "lat" = Some (VFloat q)) ∧
     (∃ v q, msg_attrs m !! "lon" = Some v ∧ Py.truediv v 1e7%float = Ok q ∧
             t !! "lon" = Some (VFloat q)) ∧
     (∃ v q, msg_attrs m !! "alt" = Some v ∧ Py.truediv v 1000%float = Ok q ∧
             t !! "alt" = Some (VFloat q)) ∧
     (∀ v, msg_attrs m !! "relative_alt" = Some v → v ≠ VNone →
           ∃ q, Py.truediv v 1000%float = Ok q ∧
                t !! "relative_alt" = Some (VFloat q)) ∧
     (∀ v, msg_attrs m !! "hdg" = Some v → v ≠ VNone →
           ∃ q, Py.truediv v 100%float = Ok q ∧
                t !! "hdg" = Some (VFloat q))) ∧
  (∀ seq now, ∃ t,
     build_telemetry_from_msg scenario_msg seq now = Some t ∧
     t !! "lat" = Some (VFloat 47.3397) ∧
     t !! "lon" = Some (VFloat 8.55505) ∧
     t !! "alt" = Some (VFloat 500.0) ∧
     t !! "relative_alt" = Some (VFloat 10.0)).
Proof.
  split.
  - intros m seq now t Hmt Hb.
    destruct (build_cases m seq now) as [[_ E] | [[E' _] | [[E' _] | [Hn _]]]];
      [| congruence | congruence | destruct Hn; by left].
    rewrite E in Hb. apply finish_Some in Hb as (kvs & Hk & ->).
    apply position_fields_ok in Hk
      as (lat & lon & alt & ra & hdg & Hlat & Hlon & Halt & Hra & Hhdg & ->).
    apply required_ok in Hlat as (vlat & Llat & Dlat).
    apply required_ok in Hlon as (vlon & Llon & Dlon).
    apply required_ok in Halt as (valt & Lalt & Dalt).
    split_and!.
    + exists vlat, lat. split_and!; try done.
      apply remove_none_lookup. by simplify_map_eq.
    + exists vlon, lon. split_and!; try done.
      apply remove_none_lookup. by simplify_map_eq.
    + exists valt, alt. split_and!; try done.
      apply remove_none_lookup. by simplify_map_eq.
    + intros v Hv Hne.
      apply optional_ok in Hra as [[Hg _] | (v' & q & Hv' & _ & Hq & ->)].
      { unfold getattr in Hg. rewrite Hv in Hg. simpl in Hg. congruence. }
      assert (v' = v) as -> by congruence.
      exists q. split; [done |].
      apply remove_none_lookup. by simplify_map_eq.
    + intros v Hv Hne.
      apply optional_ok in Hhdg as [[Hg _] | (v' & q & Hv' & _ & Hq & ->)].
      { unfold getattr in Hg. rewrite Hv in Hg. simpl in Hg. congruence. }
      assert (v' = v) as -> by congruence.
      exists q. split; [done |].
      apply remove_none_lookup. by simplify_map_eq.
  - intros seq now. eexists. split; [reflexivity |].
    repeat split; apply remove_none_lookup; by vm_compute.
Qed.

Lemma position_scaling_witness :
  ∃ q, Py.truediv (VInt 473397000) 1e7%float = Ok q ∧
       default ∅ (build_telemetry_from_msg scenario_msg 1 0%float) !! "lat"
       = Some (VFloat q).
Proof.
  destruct (proj1 position_scaling scenario_msg 1 0%float
              (default ∅ (build_telemetry_from_msg scenario_msg 1 0%float))
              eq_refl eq_refl)
    as ((v & q & Hv & Hq & Ht) & _).
  exists q. split; [| exact Ht].
  vm_compute in Hv. injection Hv as <-. exact Hq.
Defined.

Lemma result_bind_ok {A B} (r : result A) (k : A → result B) b :
  (r ≫= k) = Ok b → ∃ a, r = Ok a ∧ k a = Ok b.
Proof. destruct r as [a | e]; [| done]. intros H. by exists a. Qed.

Lemma build_no_none m seq now t :
  build_telemetry_from_msg m seq now = Some t →
  ∀ k v, t !! k = Some v → v ≠ VNone.
Proof.
  intros Hb k v Hk.
  destruct (build_cases m seq now) as [[_ E] | [[_ E] | [[_ E] | [_ E]]]];
    rewrite E in Hb; [| | | discriminate Hb];
    apply finish_Some in Hb as (kvs & _ & ->);
    apply remove_none_lookup in Hk as [_ Hk]; exact Hk.
Qed.

Lemma scaled_optional_absent m name d w :
  scaled_optional m name d = Ok w → getattr m name VNone = VNone → w = VNone.
Proof.
  unfold scaled_optional. intros H Hg. rewrite Hg in H. simpl in H. congruence.
Qed.

Section NormalizerAndFallback.
Variable float_pow : float → float → float.

Lemma synthesize_velocity_ok t t' :
  synthesize_velocity float_pow t = Ok t' →
  ∃ vx vy,
    Py.truediv (Py.get t "vx" (VInt 0)) 100%float = Ok vx ∧
    Py.truediv (Py.get t "vy" (VInt 0)) 100%float = Ok vy ∧
    t' = delete "vy" (delete "vx"
           (<["velocity" :=
                VFloat (float_pow (PrimFloat.add (PrimFloat.mul vx vx)
                                                 (PrimFloat.mul vy vy))
                                  0.5%float)]> t)).
Proof.
  unfold synthesize_velocity. intros H.
  apply result_bind_ok in H as (vx & Hx & H).
  apply result_bind_ok in H as (vy & Hy & H).
  injection H as <-. by exists vx, vy.
Qed.

Lemma velocity_fallback_cases t :
  velocity_fallback float_pow t = t ∨
  (t !! "velocity" = None ∧ (is_Some (t !! "vx") ∨ is_Some (t !! "vy")) ∧
   synthesize_velocity float_pow t = Ok (velocity_fallback float_pow t)).
Proof.
  unfold velocity_fallback, Py.contains.
  destruct (t !! "velocity") as [w |] eqn:Ev; simpl; [by left |].
  destruct (t !! "vx") as [x |] eqn:Ex; simpl.
  - destruct (synthesize_velocity float_pow t) as [t' | e] eqn:Es; [| by left].
    right. split_and!; [done | left; by eexists | done].
  - destruct (t !! "vy") as [y |] eqn:Ey; simpl; [| by left].
    destruct (synthesize_velocity float_pow t) as [t' | e] eqn:Es; [| by left].
    right. split_and!; [done | right; by eexists | done].
Qed.

(** C8: in every record [build_telemetry_from_msg] produces, an optional
    field whose extracted value is [None] is omitted, and no key is bound
    to [None]; this still holds after the reader's velocity fallback. *)
Theorem none_entries_omitted m seq now t :
  build_telemetry_from_msg m seq now = Some t →
  (∀ key src, (key, src) ∈ optional_fields (get_type m) →
              getattr m src VNone = VNone → t !! key = None) ∧
  (∀ k v, t !! k = Some v → v ≠ VNone) ∧
  (∀ k v, velocity_fallback float_pow t !! k = Some v → v ≠ VNone).
Proof.
  intros Hb. split_and!.
  - intros key src Hin Hg. unfold optional_fields in Hin.
    destruct (build_cases m seq now) as [[T E] | [[T E] | [[T E] | [_ E]]]];
      rewrite E in Hb; [| | | discriminate Hb]; rewrite T in Hin;
      simpl in Hin; apply finish_Some in Hb as (kvs & Hk & ->);
      apply remove_none_lookup_None; right.
    + apply position_fields_ok in Hk
        as (lat & lon & alt & ra & hdg & _ & _ & _ & Hra & Hhdg & ->).
      repeat (apply elem_of_cons in Hin as [[= -> ->] | Hin]);
        [| | | | | by apply elem_of_nil in Hin];
        update_lookup; f_equal;
        first [exact Hg | eapply scaled_optional_absent; eassumption].
    + injection Hk as <-.
      repeat (apply elem_of_cons in Hin as [[= -> ->] | Hin]);
        [| | | | | by apply elem_of_nil in Hin];
        update_lookup; f_equal; exact Hg.
    + apply gps_fields_ok in Hk as (lat & lon & alt & _ & _ & _ & ->).
      repeat (apply elem_of_cons in Hin as [[= -> ->] | Hin]);
        [| | by apply elem_of_nil in Hin];
        update_lookup; f_equal; exact Hg.
  - apply (build_no_none m seq now t Hb).
  - intros k v Hk.
    destruct (velocity_fallback_cases t) as [E | (_ & _ & Hs)].
    + rewrite E in Hk. apply (build_no_none m seq now t Hb k v Hk).
    + apply synthesize_velocity_ok in Hs as (vx & vy & _ & _ & Ht').
      rewrite Ht' in Hk.
      apply lookup_delete_Some in Hk as [_ Hk].
      apply lookup_delete_Some in Hk as [_ Hk].
      apply lookup_insert_Some in Hk as [[_ <-] | [_ Hk]]; [discriminate |].
      apply (build_no_none m seq now t Hb k v Hk).
Qed.

Lemma build_None_iff m seq now :
  build_telemetry_from_msg m seq now = None ↔
  ¬ recognized (get_type m) ∨ extraction_fails m.
Proof.
  unfold extraction_fails.
  rewrite <- position_fields_raise_iff, <- gps_fields_raise_iff.
  destruct (build_cases m seq now) as [[T E] | [[T E] | [[T E] | [Hn E]]]];
    rewrite E; rewrite ?finish_None.
  - split.
    + intros H. right. left. by split.
    + intros [Hn | [[_ H] | [T' _]]]; [| done | congruence].
      destruct Hn. by left.
  - split; [by intros [? ?] |].
    intros [Hn | [[T' _] | [T' _]]]; [| congruence | congruence].
    destruct Hn. right. by left.
  - split.
    + intros H. right. right. by split.
    + intros [Hn | [[T' _] | [_ H]]]; [| congruence | done].
      destruct Hn. right. by right.
  - split; [intros _; by left | done].
Qed.

Lemma build_seq_timestamp m seq now t :
  build_telemetry_from_msg m seq now = Some t →
  t !! "seq" = Some (VInt seq) ∧ t !! "timestamp" = Some (VFloat now).
Proof.
  intros Hb.
  destruct (build_cases m seq now) as [[_ E] | [[_ E] | [[_ E] | [_ E]]]];
    rewrite E in Hb; [| | | discriminate Hb];
    apply finish_Some in Hb as (kvs & Hk & ->).
  - apply position_fields_ok in Hk as (? & ? & ? & ? & ? & _ & _ & _ & _ & _ & ->).
    split; apply remove_none_lookup; (split; [| discriminate]);
      update_lookup; by simplify_map_eq.
  - injection Hk as <-.
    split; apply remove_none_lookup; (split; [| discriminate]);
      update_lookup; by simplify_map_eq.
  - apply gps_fields_ok in Hk as (? & ? & ? & _ & _ & _ & ->).
    split; apply remove_none_lookup; (split; [| discriminate]);
      update_lookup; by simplify_map_eq.
Qed.

Lemma build_mandatory m seq now t :
  build_telemetry_from_msg m seq now = Some t →
  get_type m ≠ "VFR_HUD" →
  ∃ lat lon alt, t !! "lat" = Some (VFloat lat) ∧
                 t !! "lon" = Some (VFloat lon) ∧
                 t !! "alt" = Some (VFloat alt).
Proof.
  intros Hb Ht.
  destruct (build_cases m seq now) as [[_ E] | [[T _] | [[_ E] | [_ E]]]];
    [| done | |]; rewrite E in Hb; [| | discriminate Hb];
    apply finish_Some in Hb as (kvs & Hk & ->).
  - apply position_fields_ok in Hk
      as (lat & lon & alt & ? & ? & _ & _ & _ & _ & _ & ->).
    exists lat, lon, alt.
    split_and!; apply remove_none_lookup; (split; [| discriminate]);
      by update_lookup.
  - apply gps_fields_ok in Hk as (lat & lon & alt & _ & _ & _ & ->).
    exists lat, lon, alt.
    split_and!; apply remove_none_lookup; (split; [| discriminate]);
      by update_lookup.
Qed.

(** C6: [build_telemetry_from_msg] returns [None] exactly when the type
    tag is not one of the three recognised tags or the extraction of a field
    fails for a recognised tag; a record that is produced is complete (it has
    [seq] and [timestamp], and [lat], [lon], [alt] for the two position
    types), and when nothing is produced the reader enqueues nothing. *)
Theorem absent_iff_unrecognized_or_failed :
  (∀ m seq now,
     build_telemetry_from_msg m seq now = None ↔
     ¬ recognized (get_type m) ∨ extraction_fails m) ∧
  (∀ m seq now t,
     build_telemetry_from_msg m seq now = Some t →
     t !! "seq" = Some (VInt seq) ∧ t !! "timestamp" = Some (VFloat now) ∧
     (get_type m ≠ "VFR_HUD" →
      ∃ lat lon alt, t !! "lat" = Some (VFloat lat) ∧
                     t !! "lon" = Some (VFloat lon) ∧
                     t !! "alt" = Some (VFloat alt))) ∧
  (∀ st m now,
     build_telemetry_from_msg m (seq st + 1) now = None →
     out_queue (reader_step float_pow st (RecvMsg m now)) = out_queue st).
Proof.
  split_and!.
  - apply build_None_iff.
  - intros m seq now t Hb.
    destruct (build_seq_timestamp m seq now t Hb) as [Hs Ht].
    split_and!; [done | done |]. intros Hne. by eapply build_mandatory.
  - intros st m now Hb. unfold reader_step. cbn [seq set_seq]. by rewrite Hb.
Qed.

End NormalizerAndFallback.

Lemma none_entries_omitted_witness :
  default ∅ (build_telemetry_from_msg scenario_msg 1 1700000000%float) !! "hdg"
  = None.
Proof.
  refine (proj1 (none_entries_omitted sqrt_pow scenario_msg 1 1700000000%float
                   (default ∅ (build_telemetry_from_msg scenario_msg 1
                                 1700000000%float))
                   eq_refl) "hdg" "hdg" _ eq_refl).
  vm_compute. do 4 apply list_elem_of_further. apply list_elem_of_here.
Defined.

Lemma absent_iff_unrecognized_or_failed_witness :
  build_telemetry_from_msg heartbeat_msg 1 1700000000%float = None ∧
  out_queue (reader_step sqrt_pow (bridge_init 200)
               (RecvMsg heartbeat_msg 1700000000%float))
  = out_queue (bridge_init 200).
Proof.
  destruct (absent_iff_unrecognized_or_failed sqrt_pow) as (Hiff & _ & Hq).
  assert (Hn : build_telemetry_from_msg heartbeat_msg 1 1700000000%float = None).
  { apply Hiff. left. intros [H | [H | H]]; discriminate H. }
  split; [exact Hn | exact (Hq (bridge_init 200) heartbeat_msg _ Hn)].
Defined.

(** ** The bounded queue *)

Section QueueProperties.
Context {A : Type}.
Implicit Types (q : Queue A) (x : A).

Lemma put_nowait_room q x :
  ¬ (0 < maxsize q ∧ maxsize q <= qsize q) →
  put_nowait q x = Some (MkQueue (maxsize q) (items q ++ [x])).
Proof.
  intros H. unfold put_nowait.
  destruct (0 <? maxsize q) eqn:E1; [| done].
  destruct (maxsize q <=? qsize q) eqn:E2; [| done].
  destruct H. split; lia.
Qed.

Lemma put_nowait_full q x :
  0 < maxsize q → maxsize q <= qsize q → put_nowait q x = None.
Proof.
  intros H1 H2. unfold put_nowait.
  destruct (0 <? maxsize q) eqn:E1; [| lia].
  destruct (maxsize q <=? qsize q) eqn:E2; [done | lia].
Qed.

Lemma enqueue_room q x :
  ¬ (0 < maxsize q ∧ maxsize q <= qsize q) →
  enqueue q x = MkQueue (maxsize q) (items q ++ [x]).
Proof. intros H. unfold enqueue. by rewrite put_nowait_room. Qed.

Lemma enqueue_full q x :
  0 < maxsize q → qsize q = maxsize q →
  ∃ oldest rest, items q = oldest :: rest ∧
                 enqueue q x = MkQueue (maxsize q) (rest ++ [x]).
Proof.
  intros Hpos Hfull. unfold enqueue.
  rewrite put_nowait_full by lia.
  destruct q as [n [| oldest rest]]; unfold qsize in *; simpl in *; [lia |].
  exists oldest, rest. split; [done |]. unfold get_nowait. simpl.
  rewrite put_nowait_room; [done |]. unfold qsize. simpl. lia.
Qed.

Lemma enqueue_maxsize q x : maxsize (enqueue q x) = maxsize q.
Proof.
  unfold enqueue, put_nowait, get_nowait.
  destruct ((0 <? maxsize q) && (maxsize q <=? qsize q)); [| done].
  destruct (items q) as [| y rest]; [done |]. simpl.
  by destruct ((0 <? maxsize q) && (maxsize q <=? _)).
Qed.

(** The items after a push: the old items followed by the new one, minus
    as many of the oldest as exceed the capacity. *)
Lemma enqueue_items q x :
  0 < maxsize q → qsize q <= maxsize q →
  items (enqueue q x)
  = drop (length (items q ++ [x]) - Z.to_nat (maxsize q)) (items q ++ [x]).
Proof.
  intros Hpos Hle. rewrite length_app. simpl.
  destruct (decide (qsize q = maxsize q)) as [Hfull | Hnf].
  - destruct (enqueue_full q x Hpos Hfull) as (oldest & rest & Hi & ->).
    rewrite Hi. unfold qsize in Hfull. rewrite Hi in Hfull. simpl in *.
    match goal with
    | |- _ = drop ?d _ => replace d with 1%nat by lia
    end.
    done.
  - rewrite enqueue_room by lia. simpl. unfold qsize in *.
    match goal with
    | |- _ = drop ?d _ => replace d with 0%nat by lia
    end.
    done.
Qed.

Lemma enqueue_ok q x : queue_ok q → queue_ok (enqueue q x).
Proof.
  unfold queue_ok. rewrite enqueue_maxsize. intros Hok Hpos.
  specialize (Hok Hpos). unfold qsize.
  rewrite enqueue_items by done.
  rewrite length_drop, length_app. unfold qsize in Hok. simpl. lia.
Qed.

Lemma enqueue_all_items (l : list A) : ∀ q,
  0 < maxsize q → qsize q <= maxsize q →
  items (foldl enqueue q l)
  = drop (length (items q ++ l) - Z.to_nat (maxsize q)) (items q ++ l)
  ∧ maxsize (foldl enqueue q l) = maxsize q.
Proof.
  induction l as [| x l IH]; intros q Hpos Hle.
  - simpl. rewrite app_nil_r. split; [| done]. unfold qsize in Hle.
    match goal with
    | |- _ = drop ?d _ => replace d with 0%nat by lia
    end.
    done.
  - cbn [foldl].
    assert (Hok : qsize (enqueue q x) <= maxsize (enqueue q x)).
    { apply enqueue_ok; [by intros _ |]. by rewrite enqueue_maxsize. }
    destruct (IH (enqueue q x)) as [Hi Hm]; [by rewrite enqueue_maxsize | done |].
    rewrite Hi, Hm, !enqueue_maxsize. split; [| done].
    rewrite enqueue_items by done.
    set (n := Z.to_nat (maxsize q)).
    set (d := (length (items q ++ [x]) - n)%nat).
    assert (Hd : (d <= length (items q ++ [x]))%nat) by lia.
    rewrite <- (drop_app_le (items q ++ [x]) l d Hd).
    rewrite drop_drop, <- app_assoc. simpl. f_equal.
    rewrite length_drop, !length_app. simpl.
    unfold d. rewrite length_app. simpl.
    unfold qsize in Hle. lia.
Qed.

(** C3: for every state of a bounded queue of capacity N (N positive, at
    most N items), the reader's push leaves at most N items; when there is
    room the record is appended, and when the queue is full exactly the
    oldest item is removed and the new record is appended, the others
    keeping their order. *)
Theorem enqueue_bounded_drop_oldest q x :
  0 < maxsize q → qsize q <= maxsize q →
  maxsize (enqueue q x) = maxsize q ∧
  qsize (enqueue q x) <= maxsize q ∧
  (qsize q < maxsize q → items (enqueue q x) = items q ++ [x]) ∧
  (qsize q = maxsize q →
   ∃ oldest rest, items q = oldest :: rest ∧
                  items (enqueue q x) = rest ++ [x]).
Proof.
  intros Hpos Hle. split_and!.
  - apply enqueue_maxsize.
  - pose proof (enqueue_ok q x (λ _, Hle)) as H. unfold queue_ok in H.
    rewrite enqueue_maxsize in H. by apply H.
  - intros Hlt. rewrite enqueue_room by lia. done.
  - intros Hfull.
    destruct (enqueue_full q x Hpos Hfull) as (oldest & rest & Hi & ->).
    by exists oldest, rest.
Qed.

(** C9 (amended): feeding 250 records into an empty queue of capacity 200
    that nobody drains leaves exactly 200 items, the records 51 to 250 in
    their order of arrival. *)
Theorem feed_250_into_200 (l : list A) :
  length l = 250%nat →
  let q := foldl enqueue (MkQueue 200 []) l in
  length (items q) = 200%nat ∧
  items q = drop 50 l ∧
  (∀ i, (i < 200)%nat → items q !! i = l !! (50 + i)%nat).
Proof.
  intros Hlen q.
  destruct (enqueue_all_items l (MkQueue 200 [])) as [Hi _];
    [done | done |].
  fold q in Hi. simpl in Hi. rewrite Hlen in Hi.
  change (250 - Z.to_nat 200)%nat with 50%nat in Hi.
  split_and!.
  - rewrite Hi, length_drop. lia.
  - done.
  - intros i _. rewrite Hi. apply lookup_drop.
Qed.

End QueueProperties.

Lemma enqueue_bounded_drop_oldest_witness :
  qsize (enqueue (MkQueue 2 [1; 2]) 3) <= 2 ∧
  ∃ oldest rest, [1; 2] = oldest :: rest ∧
                 items (enqueue (MkQueue 2 [1; 2]) 3) = rest ++ [3].
Proof.
  destruct (enqueue_bounded_drop_oldest (MkQueue 2 [1; 2]) 3)
    as (_ & Hle & _ & Hfull).
  - simpl. lia.
  - vm_compute. discriminate.
  - split; [exact Hle | exact (Hfull eq_refl)].
Defined.

Lemma feed_250_into_200_witness :
  items (foldl enqueue (MkQueue 200 []) (seqZ 1 250)) = seqZ 51 200.
Proof.
  destruct (feed_250_into_200 (seqZ 1 250)) as (_ & Hi & _).
  - vm_compute. reflexivity.
  - rewrite Hi. vm_compute. reflexivity.
Defined.

(** ** The reader loop *)

Lemma enqueue_last {A} (q : Queue A) (x : A) :
  queue_ok q → last (items (enqueue q x)) = Some x.
Proof.
  intros Hok.
  destruct (decide (0 < maxsize q ∧ maxsize q <= qsize q)) as [[Hpos Hge] | Hn].
  - specialize (Hok Hpos).
    destruct (enqueue_full q x Hpos) as (oldest & rest & _ & ->); [lia |].
    apply last_snoc.
  - rewrite enqueue_room by done. apply last_snoc.
Qed.

Section ReaderProperties.
Variable float_pow : float → float → float.

(** The fallback touches no key other than [velocity], [vx] and [vy]. *)
Lemma velocity_fallback_other t k :
  k ≠ "velocity" → k ≠ "vx" → k ≠ "vy" →
  velocity_fallback float_pow t !! k = t !! k.
Proof.
  intros H1 H2 H3.
  destruct (velocity_fallback_cases float_pow t) as [-> | (_ & _ & Hs)]; [done |].
  apply synthesize_velocity_ok in Hs as (vx & vy & _ & _ & ->).
  by rewrite !lookup_delete_ne, lookup_insert_ne.
Qed.

Lemma reader_step_seq st r :
  seq (reader_step float_pow st r)
  = match r with RecvMsg _ _ => seq st + 1 | _ => seq st end.
Proof.
  destruct r as [| m now | e]; try done.
  unfold reader_step.
  destruct (build_telemetry_from_msg m _ now) as [t |]; [| done].
  by destruct (Py.truthy t).
Qed.

Lemma reader_step_ok st r :
  queue_ok (out_queue st) → queue_ok (out_queue (reader_step float_pow st r)).
Proof.
  intros Hok. destruct r as [| m now | e]; try done.
  unfold reader_step.
  destruct (build_telemetry_from_msg m _ now) as [t |]; [| done].
  destruct (Py.truthy t); [| done]. by apply enqueue_ok.
Qed.

Lemma reader_run_snoc st rs r :
  reader_run float_pow st (rs ++ [r])
  = reader_step float_pow (reader_run float_pow st rs) r.
Proof. unfold reader_run. by rewrite foldl_snoc. Qed.

Lemma observed_snoc rs r :
  observed (rs ++ [r])
  = match r with RecvMsg _ _ => observed rs + 1 | _ => observed rs end.
Proof.
  unfold observed. rewrite filter_app, length_app.
  destruct r; simpl; lia.
Qed.

Lemma reader_run_seq st rs :
  seq (reader_run float_pow st rs) = seq st + observed rs.
Proof.
  induction rs as [| r rs IH] using rev_ind.
  - unfold observed. simpl. lia.
  - rewrite reader_run_snoc, reader_step_seq, observed_snoc, IH.
    destruct r; lia.
Qed.

Lemma reader_run_ok st rs :
  queue_ok (out_queue st) → queue_ok (out_queue (reader_run float_pow st rs)).
Proof.
  intros Hok. induction rs as [| r rs IH] using rev_ind; [done |].
  rewrite reader_run_snoc. by apply reader_step_ok.
Qed.

Lemma build_truthy m n now t :
  build_telemetry_from_msg m n now = Some t → Py.truthy t = true.
Proof.
  intros Hb. apply build_seq_timestamp in Hb as [Hs _].
  unfold Py.truthy. apply negb_true_iff, bool_decide_eq_false.
  intros ->. by rewrite lookup_empty in Hs.
Qed.

(** C2: the counter is 0 before the first event, and for every run of the
    reader the event observed after the results [pre] is numbered one more
    than the number of events observed in [pre] (so the first is numbered
    1), whether or not it is normalised; a record that is accepted is
    enqueued carrying that number as its [seq]. *)
Theorem seq_counts_observed_events queue_size pre m now :
  let st := reader_run float_pow (bridge_init queue_size) pre in
  let st' := reader_step float_pow st (RecvMsg m now) in
  seq (bridge_init queue_size) = 0 ∧
  seq st = observed pre ∧
  seq st' = observed pre + 1 ∧
  (∀ t, build_telemetry_from_msg m (seq st + 1) now = Some t →
        t !! "seq" = Some (VInt (observed pre + 1)) ∧
        ∃ r, last (items (out_queue st')) = Some r ∧
             r !! "seq" = Some (VInt (observed pre + 1))).
Proof.
  intros st st'.
  assert (Hs : seq st = observed pre).
  { unfold st. rewrite reader_run_seq. simpl. lia. }
  split_and!; [done | done | |].
  - unfold st'. rewrite reader_step_seq. lia.
  - intros t Hb.
    pose proof (build_seq_timestamp _ _ _ _ Hb) as [Ht _].
    rewrite Hs in Ht. split; [done |].
    exists (velocity_fallback float_pow t). split.
    + unfold st', reader_step. cbn [seq set_seq]. rewrite Hb.
      rewrite (build_truthy _ _ _ _ Hb). cbn [out_queue set_queue set_seq].
      apply enqueue_last. apply reader_run_ok.
      unfold queue_ok, qsize. simpl. lia.
    + by rewrite velocity_fallback_other.
Qed.

(** C10: the velocity fallback removes no key other than [vx] and [vy]
    and changes no key other than [velocity], [vx] and [vy]; in particular
    [vz] and [hdg] are left as they were. *)
Theorem velocity_fallback_frame t :
  let t' := velocity_fallback float_pow t in
  (∀ k, k ≠ "velocity" → k ≠ "vx" → k ≠ "vy" → t' !! k = t !! k) ∧
  (∀ k, is_Some (t !! k) → t' !! k = None → k = "vx" ∨ k = "vy") ∧
  t' !! "vz" = t !! "vz" ∧
  t' !! "hdg" = t !! "hdg".
Proof.
  intros t'. split_and!.
  - intros k. apply velocity_fallback_other.
  - intros k [v Hv] Hn.
    destruct (decide (k = "vx")) as [| N1]; [by left |].
    destruct (decide (k = "vy")) as [| N2]; [by right |].
    exfalso. unfold t' in Hn.
    destruct (velocity_fallback_cases float_pow t) as [E | (Hvel & _ & Hs)].
    + rewrite E in Hn. congruence.
    + apply synthesize_velocity_ok in Hs as (vx & vy & _ & _ & E).
      rewrite E, !lookup_delete_ne in Hn by done.
      apply lookup_insert_None in Hn as [Hn _]. congruence.
  - by apply velocity_fallback_other.
  - by apply velocity_fallback_other.
Qed.

End ReaderProperties.

Lemma seq_counts_observed_events_witness :
  seq (reader_step sqrt_pow (reader_run sqrt_pow (bridge_init 200) mixed_results)
         (RecvMsg scenario_msg 1700000000%float)) = 2 ∧
  default ∅ (build_telemetry_from_msg scenario_msg 2 1700000000%float) !! "seq"
  = Some (VInt 2).
Proof.
  destruct (seq_counts_observed_events sqrt_pow 200 mixed_results scenario_msg
              1700000000%float) as (_ & _ & Hs & Hrec).
  split; [exact Hs |].
  exact (proj1 (Hrec (default ∅ (build_telemetry_from_msg scenario_msg 2
                                   1700000000%float)) eq_refl)).
Defined.

Lemma velocity_fallback_frame_witness :
  velocity_fallback sqrt_pow moving_record !! "vz" = Some (VInt 50).
Proof.
  rewrite (proj1 (velocity_fallback_frame sqrt_pow moving_record) "vz");
    [vm_compute; reflexivity | discriminate | discriminate | discriminate].
Defined.

(** ** The velocity fallback *)

Section VelocityProperties.
Variable float_pow : float → float → float.

Lemma missing_component_zero (t : gmap string value) k q :
  t !! k = None →
  Py.truediv (Py.get t k (VInt 0)) 100%float = Ok q → q = 0%float.
Proof.
  intros Hk. unfold Py.get. rewrite Hk. simpl.
  vm_compute. by intros [= <-].
Qed.


End VelocityProperties.



(** ** The publish loop *)

Section PublisherProperties.
Variable float_pow : float → float → float.
Variables (topic : string) (rate_hz : float).

Lemma reader_step_publisher st r :
  last_pub (reader_step float_pow st r) = last_pub st ∧
  published (reader_step float_pow st r) = published st.
Proof.
  destruct r as [| m now | e]; try done.
  unfold reader_step.
  destruct (build_telemetry_from_msg m _ now) as [t |]; [| done].
  by destruct (Py.truthy t).
Qed.

Lemma publisher_step_cases st now :
  (items (out_queue st) = [] ∧ publisher_step topic rate_hz st now = st) ∨
  (∃ t rest, items (out_queue st) = t :: rest ∧
     ((PrimFloat.ltb (PrimFloat.sub now (last_pub st))
                     (publish_interval rate_hz) = true ∧
       publisher_step topic rate_hz st now
       = set_queue (MkQueue (maxsize (out_queue st)) rest) st) ∨
      (PrimFloat.ltb (PrimFloat.sub now (last_pub st))
                     (publish_interval rate_hz) = false ∧
       publisher_step topic rate_hz st now
       = BridgeState (seq st) now (MkQueue (maxsize (out_queue st)) rest)
                     (published st ++ [Publication now topic t])
                     (stderr st)))).
Proof.
  unfold publisher_step, get_nowait.
  destruct (items (out_queue st)) as [| t rest]; [by left |].
  right. exists t, rest. split; [done |].
  destruct (PrimFloat.ltb _ _); [by left | by right].
Qed.

Lemma bridge_step_inv st ev :
  publisher_inv (publish_interval rate_hz) st →
  publisher_inv (publish_interval rate_hz) (bridge_step float_pow topic rate_hz st ev).
Proof.
  intros [Hlast Hsp]. destruct ev as [r | now]; cbn [bridge_step].
  - destruct (reader_step_publisher st r) as [E1 E2].
    unfold publisher_inv. by rewrite E1, E2.
  - destruct (publisher_step_cases st now)
      as [[_ ->] | (t & rest & _ & [[_ ->] | [Hlt ->]])]; [done | done |].
    split; cbn [published last_pub].
    + intros p. rewrite last_snoc. by intros [= <-].
    + intros i p1 p2 H1 H2.
      destruct (decide (S i < length (published st))%nat) as [Hi | Hi].
      * rewrite lookup_app_l in H1 by lia. rewrite lookup_app_l in H2 by done.
        by eapply Hsp.
      * apply lookup_lt_Some in H2 as Hlen. rewrite length_app in Hlen.
        simpl in Hlen. assert (S i = length (published st)) as Hi' by lia.
        rewrite lookup_app_l in H1 by lia.
        rewrite Hi', lookup_app_r, Nat.sub_diag in H2 by lia.
        injection H2 as <-.
        assert (last (published st) = Some p1) as Hl.
        { rewrite last_lookup, <- Hi'. done. }
        unfold spaced. cbn [pub_time]. by rewrite (Hlast p1 Hl).
Qed.

Lemma bridge_run_inv st evs :
  publisher_inv (publish_interval rate_hz) st →
  publisher_inv (publish_interval rate_hz) (bridge_run float_pow topic rate_hz st evs).
Proof.
  revert st. induction evs as [| ev evs IH]; intros st Hinv; [done |].
  apply IH. by apply bridge_step_inv.
Qed.

(** C5 (amended): the publish interval is [1 / max(0.1, R)], which is
    [1 / R] when R is 0.1 or more; in every run of the bridge two
    consecutive publishes have clock readings that are not less than this
    interval apart; a record dequeued sooner than the interval after the
    last publish is removed from the queue, is not published, and leaves
    the queue otherwise as it was. *)
Theorem publishes_spaced_by_interval queue_size evs :
  let st := bridge_run float_pow topic rate_hz (bridge_init queue_size) evs in
  publish_interval rate_hz
  = PrimFloat.div 1%float (if PrimFloat.ltb 0.1%float rate_hz
                           then rate_hz else 0.1%float) ∧
  (PrimFloat.ltb 0.1%float rate_hz = true ∨ rate_hz = 0.1%float →
   publish_interval rate_hz = PrimFloat.div 1%float rate_hz) ∧
  (∀ i p1 p2, published st !! i = Some p1 → published st !! S i = Some p2 →
              spaced (publish_interval rate_hz) p1 p2) ∧
  (∀ now t rest,
     items (out_queue st) = t :: rest →
     PrimFloat.ltb (PrimFloat.sub now (last_pub st))
                   (publish_interval rate_hz) = true →
     let st' := publisher_step topic rate_hz st now in
     items (out_queue st') = rest ∧
     published st' = published st ∧
     last_pub st' = last_pub st).
Proof.
  intros st. split_and!.
  - done.
  - unfold publish_interval, Py.max. intros [-> | ->]; [done |]. by vm_compute.
  - apply (bridge_run_inv (bridge_init queue_size) evs).
    split; [done |]. intros i p1 p2 H. cbn [published bridge_init] in H.
    by rewrite lookup_nil in H.
  - intros now t rest Hi Hlt st'. unfold st'.
    destruct (publisher_step_cases st now)
      as [[E _] | (t1 & rest1 & E & [[_ ->] | [Hge _]])];
      [congruence | | congruence].
    rewrite Hi in E. by injection E as <- <-.
Qed.

End PublisherProperties.

Lemma publishes_spaced_by_interval_witness :
  pub_time <$> published two_hz_final
  = [1700000000%float; 1700000000.625%float] ∧
  PrimFloat.ltb (PrimFloat.sub 1700000000.625%float 1700000000%float)
                (publish_interval 2%float) = false.
Proof.
  split; [vm_compute; reflexivity |].
  destruct (publishes_spaced_by_interval sqrt_pow "drone/telemetry" 2%float
              200 two_hz_run) as (_ & _ & Hsp & _).
  fold two_hz_final in Hsp.
  assert (H1 : published two_hz_final !! 0%nat
               = Some (Publication 1700000000%float "drone/telemetry"
                         (default ∅ (build_telemetry_from_msg hud_msg 1
                                       1700000000%float))))
    by (vm_compute; reflexivity).
  assert (H2 : published two_hz_final !! 1%nat
               = Some (Publication 1700000000.625%float "drone/telemetry"
                         (default ∅ (build_telemetry_from_msg hud_msg 3
                                       1700000000%float))))
    by (vm_compute; reflexivity).
  exact (Hsp 0%nat _ _ H1 H2).
Defined.

(** C5, as stated, fails for a rate below 0.1 Hz: with R = 0.05 the
    interval is 10 s, and two records are published 10 s apart, which is
    less than 1/R = 20 s. *)
Lemma publishes_closer_than_inverse_rate :
  pub_time <$> published slow_rate_final
  = [1700000000%float; 1700000010%float] ∧
  PrimFloat.ltb (PrimFloat.sub 1700000010%float 1700000000%float)
                (PrimFloat.div 1%float 0.05%float) = true.
Proof. split; vm_compute; reflexivity. Qed.

(** C9, as stated, fails: 250 events fed to the reader with a queue of
    capacity 200 leave 200 records, numbered 51 to 250, and not 51 to
    300. *)
Lemma feed_250_events_keeps_51_to_250 :
  length (items (out_queue fed_250)) = 200%nat ∧
  queued_seqs fed_250 = (λ i, Some (VInt i)) <$> seqZ 51 200 ∧
  queued_seqs fed_250 ≠ (λ i, Some (VInt i)) <$> seqZ 51 250.
Proof.
  assert (Hs : queued_seqs fed_250 = (λ i, Some (VInt i)) <$> seqZ 51 200)
    by (vm_compute; reflexivity).
  split_and!.
  - vm_compute. reflexivity.
  - exact Hs.
  - rewrite Hs. intros H. apply (f_equal length) in H.
    vm_compute in H. discriminate H.
Qed.

(** ** Command line *)

Section CLIProperties.
Import CLI.

(** C7 (amended): if the configured password file cannot be read, the
    error is written to stderr, and startup goes on: [bridge_loop] is
    called once, with the password [None] and the other arguments as
    given. *)
Theorem unreadable_password_reported_and_ignored
    fs bridge_loop (a : args) path e :
  mqtt_pass_file a = Some path → path ≠ "" → fs path = FileError e →
  let out := main fs bridge_loop a in
  head (out_stderr out) = Some ("[args] failed reading password file: " +:+ e) ∧
  ∃ call,
    bridge_calls out = [call] ∧
    password (call_cfg call) = None ∧
    call = BridgeCall (mav a)
             (MqttCfg (mqtt_host a) (mqtt_port a) (mqtt_user a) None
                      (tls_ca a) (tls_cert a) (tls_key a))
             (topic a) (rate a) (queue_size a) ∧
    (bridge_loop call = BridgeReturns → exit_code out = None).
Proof.
  intros Hf Hne Hfs out. unfold out, main, read_password.
  rewrite Hf. apply String.eqb_neq in Hne. rewrite Hne, Hfs.
  destruct (bridge_loop _) eqn:Hb; cbn [out_stderr bridge_calls exit_code].
  - split; [done |]. eexists. by split_and!.
  - split; [done |]. eexists. split_and!; try done. by rewrite Hb.
Qed.

Lemma unreadable_password_reported_and_ignored_witness :
  head (out_stderr (main missing_file (λ _, BridgeReturns) example_args))
  = Some "[args] failed reading password file: [Errno 2] No such file or directory".
Proof.
  exact (proj1 (unreadable_password_reported_and_ignored
                  missing_file (λ _, BridgeReturns) example_args
                  "./secrets/mqtt_pass.txt"
                  "[Errno 2] No such file or directory"
                  eq_refl ltac:(discriminate) eq_refl)).
Defined.

(** C7, as stated, fails: with an unreadable password file [main] does not
    abort; it calls [bridge_loop] (with no password) and does not exit. *)
Lemma unreadable_password_does_not_abort :
  length (bridge_calls (main missing_file (λ _, BridgeReturns) example_args))
  = 1%nat ∧
  (password ∘ call_cfg)
    <$> bridge_calls (main missing_file (λ _, BridgeReturns) example_args)
  = [None] ∧
  exit_code (main missing_file (λ _, BridgeReturns) example_args) = None.
Proof. by vm_compute. Qed.

End CLIProperties.

(** * Further properties of the code *)

(** ** The builder *)

Lemma update_lookup_Some kvs : ∀ (t : gmap string value) k v,
  Py.update t kvs !! k = Some v → k ∈ kvs.*1 ∨ t !! k = Some v.
Proof.
  induction kvs as [| [k' v'] rest IH]; intros t k v H; [by right |].
  unfold Py.update in H. cbn [foldl fst snd] in H.
  apply IH in H as [H | H].
  - left. rewrite fmap_cons. by apply list_elem_of_further.
  - apply lookup_insert_Some in H as [[<- _] | [_ H]].
    + left. rewrite fmap_cons. apply list_elem_of_here.
    + by right.
Qed.

Lemma getattr_Some m name v :
  msg_attrs m !! name = Some v → getattr m name VNone = v.
Proof. intros H. unfold getattr. by rewrite H. Qed.

(** X1: a VFR_HUD event is never rejected: whatever attributes the
    message has or lacks, [build_telemetry_from_msg] returns a record. *)
Theorem hud_always_accepted m seq now :
  get_type m = "VFR_HUD" →
  ∃ t, build_telemetry_from_msg m seq now = Some t.
Proof.
  intros T.
  destruct (build_telemetry_from_msg m seq now) as [t |] eqn:Hb; [by exists t |].
  apply build_None_iff in Hb as [Hn | [[T' _] | [T' _]]].
  - destruct Hn. right. by left.
  - congruence.
  - congruence.
Qed.

Lemma hud_always_accepted_witness :
  ∃ t, build_telemetry_from_msg (Msg "VFR_HUD" ∅) 7 1700000000%float = Some t.
Proof. exact (hud_always_accepted (Msg "VFR_HUD" ∅) 7 1700000000%float eq_refl). Defined.

(** X2: the fields that are not scaled are copied as they are: for every
    record produced, a pass-through field whose source attribute is there
    and is not [None] is bound to exactly that raw value (so [vx], [vy], [vz]
    stay in cm/s, and the VFR_HUD [vel] appears under the key
    [velocity]). *)
Theorem passthrough_fields_copied m seq now t key src v :
  build_telemetry_from_msg m seq now = Some t →
  (key, src) ∈ passthrough_fields (get_type m) →
  msg_attrs m !! src = Some v → v ≠ VNone →
  t !! key = Some v.
Proof.
  intros Hb Hin Hv Hne. apply getattr_Some in Hv as Hg.
  unfold passthrough_fields in Hin.
  destruct (build_cases m seq now) as [[T E] | [[T E] | [[T E] | [_ E]]]];
    rewrite E in Hb; [| | | discriminate Hb]; rewrite T in Hin;
    simpl in Hin; apply finish_Some in Hb as (kvs & Hk & ->);
    apply remove_none_lookup; (split; [| exact Hne]).
  - apply position_fields_ok in Hk
      as (lat & lon & alt & ra & hdg & _ & _ & _ & _ & _ & ->).
    repeat (apply elem_of_cons in Hin as [[= -> ->] | Hin]);
      [| | | by apply elem_of_nil in Hin];
      update_lookup; f_equal; exact Hg.
  - injection Hk as <-.
    repeat (apply elem_of_cons in Hin as [[= -> ->] | Hin]);
      [| | | | | by apply elem_of_nil in Hin];
      update_lookup; f_equal; exact Hg.
  - apply gps_fields_ok in Hk as (lat & lon & alt & _ & _ & _ & ->).
    repeat (apply elem_of_cons in Hin as [[= -> ->] | Hin]);
      [| | by apply elem_of_nil in Hin];
      update_lookup; f_equal; exact Hg.
Qed.

Lemma passthrough_fields_copied_witness :
  moving_record !! "vx" = Some (VInt 300).
Proof.
  refine (passthrough_fields_copied moving_msg 1 1700000000%float
            moving_record "vx" "vx" (VInt 300) eq_refl _ eq_refl _).
  - vm_compute. apply list_elem_of_here.
  - discriminate.
Defined.

(** X3: for every GPS_RAW_INT event that is accepted, [lat] and [lon] are
    the raw fields divided by 1e7 and [alt] is the raw field divided by
    1000, as for position events. *)
Theorem gps_scaling m seq now t :
  get_type m = "GPS_RAW_INT" →
  build_telemetry_from_msg m seq now = Some t →
  (∃ v q, msg_attrs m !! "lat" = Some v ∧ Py.truediv v 1e7%float = Ok q ∧
          t !! "lat" = Some (VFloat q)) ∧
  (∃ v q, msg_attrs m !! "lon" = Some v ∧ Py.truediv v 1e7%float = Ok q ∧
          t !! "lon" = Some (VFloat q)) ∧
  (∃ v q, msg_attrs m !! "alt" = Some v ∧ Py.truediv v 1000%float = Ok q ∧
          t !! "alt" = Some (VFloat q)).
Proof.
  intros Hmt Hb.
  destruct (build_cases m seq now) as [[E' _] | [[E' _] | [[_ E] | [Hn _]]]];
    [congruence | congruence | | destruct Hn; right; by right].
  rewrite E in Hb. apply finish_Some in Hb as (kvs & Hk & ->).
  apply gps_fields_ok in Hk as (lat & lon & alt & Hlat & Hlon & Halt & ->).
  apply required_ok in Hlat as (vlat & Llat & Dlat).
  apply required_ok in Hlon as (vlon & Llon & Dlon).
  apply required_ok in Halt as (valt & Lalt & Dalt).
  split_and!.
  - exists vlat, lat. split_and!; [done | done |].
    apply remove_none_lookup. split; [by update_lookup | discriminate].
  - exists vlon, lon. split_and!; [done | done |].
    apply remove_none_lookup. split; [by update_lookup | discriminate].
  - exists valt, alt. split_and!; [done | done |].
    apply remove_none_lookup. split; [by update_lookup | discriminate].
Qed.

Lemma gps_scaling_witness :
  default ∅ (build_telemetry_from_msg gps_msg 1 1700000000%float) !! "alt"
  = Some (VFloat 500).
Proof.
  destruct (gps_scaling gps_msg 1 1700000000%float
              (default ∅ (build_telemetry_from_msg gps_msg 1 1700000000%float))
              eq_refl eq_refl) as (_ & _ & (v & q & Hv & Hq & Ht)).
  rewrite Ht. vm_compute in Hv. injection Hv as <-.
  vm_compute in Hq. injection Hq as <-. reflexivity.
Defined.

Lemma build_keys m seq now t k :
  build_telemetry_from_msg m seq now = Some t →
  is_Some (t !! k) → k ∈ record_keys (get_type m).
Proof.
  intros Hb [v Hk]. unfold record_keys.
  assert (Hbase : ∀ w, (<["timestamp" := VFloat now]>
                          (<["seq" := VInt seq]> (∅ : gmap string value)))
                       !! k = Some w → k = "timestamp" ∨ k = "seq").
  { intros w Hw. apply lookup_insert_Some in Hw as [[<- _] | [_ Hw]]; [by left |].
    apply lookup_insert_Some in Hw as [[<- _] | [_ Hw]]; [by right |].
    by rewrite lookup_empty in Hw. }
  destruct (build_cases m seq now) as [[T E] | [[T E] | [[T E] | [_ E]]]];
    rewrite E in Hb; [| | | discriminate Hb]; rewrite T;
    apply finish_Some in Hb as (kvs & Hkvs & ->);
    apply remove_none_lookup in Hk as [Hk _];
    apply update_lookup_Some in Hk as [Hk | Hk];
    try (apply Hbase in Hk as [-> | ->];
         [apply list_elem_of_further, list_elem_of_here
         | apply list_elem_of_here]).
  - apply position_fields_ok in Hkvs
      as (? & ? & ? & ? & ? & _ & _ & _ & _ & _ & ->).
    cbn in Hk. do 2 apply list_elem_of_further. exact Hk.
  - injection Hkvs as <-.
    cbn in Hk. do 2 apply list_elem_of_further. exact Hk.
  - apply gps_fields_ok in Hkvs as (? & ? & ? & _ & _ & _ & ->).
    cbn in Hk. do 2 apply list_elem_of_further. exact Hk.
Qed.

(** X4: a record has no key outside the schema of its event type: [seq],
    [timestamp] and the fields listed for that type. *)
Theorem record_keys_known m seq now t k :
  build_telemetry_from_msg m seq now = Some t →
  is_Some (t !! k) → k ∈ record_keys (get_type m).
Proof. apply build_keys. Qed.

Lemma record_keys_known_witness :
  "lat" ∈ record_keys "GLOBAL_POSITION_INT".
Proof.
  exact (record_keys_known scenario_msg 1 1700000000%float
           (default ∅ (build_telemetry_from_msg scenario_msg 1 1700000000%float))
           "lat" eq_refl (ex_intro _ (VFloat 47.3397) eq_refl)).
Defined.

Lemma remove_none_lookup_eq (t : gmap string value) k :
  remove_none t !! k = match t !! k with
                       | Some VNone => None
                       | o => o
                       end.
Proof.
  destruct (remove_none t !! k) as [v |] eqn:E.
  - apply remove_none_lookup in E as [-> Hne]. by destruct v.
  - apply remove_none_lookup_None in E as [-> | ->]; done.
Qed.

Lemma assoc_last_None k kvs : k ∉ kvs.*1 → assoc_last k kvs = None.
Proof.
  induction kvs as [| [k' v'] rest IH]; intros Hn; [done |].
  rewrite fmap_cons in Hn. apply not_elem_of_cons in Hn as [Hne Hn].
  cbn [assoc_last fst snd]. rewrite (IH Hn).
  by destruct (decide (k = k')).
Qed.

Lemma stamp_lookup (t : gmap string value) s n k :
  (<["timestamp" := VFloat n]> (<["seq" := VInt s]> t)) !! k
  = if decide (k = "timestamp") then Some (VFloat n)
    else if decide (k = "seq") then Some (VInt s)
    else t !! k.
Proof.
  destruct (decide (k = "timestamp")) as [-> | Nt]; [apply lookup_insert_eq |].
  rewrite lookup_insert_ne by done.
  destruct (decide (k = "seq")) as [-> | Ns]; [apply lookup_insert_eq |].
  by rewrite lookup_insert_ne.
Qed.

(** Re-stamping a record: the counter and the clock only determine the
    [seq] and [timestamp] entries. *)
Lemma finish_restamp kvs s n s' n' :
  "seq" ∉ kvs.*1 → "timestamp" ∉ kvs.*1 →
  remove_none (Py.update (<["timestamp" := VFloat n']>
                            (<["seq" := VInt s']> ∅)) kvs)
  = <["timestamp" := VFloat n']>
      (<["seq" := VInt s']>
         (remove_none (Py.update (<["timestamp" := VFloat n]>
                                    (<["seq" := VInt s]> ∅)) kvs))).
Proof.
  intros Hs Ht. apply map_eq. intros k.
  rewrite stamp_lookup, !remove_none_lookup_eq, !update_lookup, !stamp_lookup.
  destruct (decide (k = "timestamp")) as [-> | Nt].
  { by rewrite (assoc_last_None _ _ Ht). }
  destruct (decide (k = "seq")) as [-> | Ns].
  { by rewrite (assoc_last_None _ _ Hs). }
  done.
Qed.

Ltac not_a_key :=
  let H := fresh in
  cbn; intros H;
  repeat (apply elem_of_cons in H as [H | H]; [discriminate H |]);
  by apply elem_of_nil in H.

(** X5: the counter and the clock reading only stamp the record: the
    same event built with another counter and clock gives the same record
    with [seq] and [timestamp] replaced, and is rejected if and only if it
    was rejected before. *)
Theorem seq_and_clock_only_stamp m s n s' n' :
  (∀ t, build_telemetry_from_msg m s n = Some t →
        build_telemetry_from_msg m s' n'
        = Some (<["timestamp" := VFloat n']> (<["seq" := VInt s']> t))) ∧
  (build_telemetry_from_msg m s n = None →
   build_telemetry_from_msg m s' n' = None).
Proof.
  split.
  - intros t Hb.
    destruct (build_cases m s n) as [[T E] | [[T E] | [[T E] | [_ E]]]];
      rewrite E in Hb; [| | | discriminate Hb];
      apply finish_Some in Hb as (kvs & Hk & ->);
      unfold build_telemetry_from_msg; rewrite T; cbn [String.eqb];
      simpl String.eqb; cbv iota; rewrite Hk; cbn [finish]; f_equal.
    + apply position_fields_ok in Hk
        as (? & ? & ? & ? & ? & _ & _ & _ & _ & _ & ->).
      apply finish_restamp; not_a_key.
    + injection Hk as <-. apply finish_restamp; not_a_key.
    + apply gps_fields_ok in Hk as (? & ? & ? & _ & _ & _ & ->).
      apply finish_restamp; not_a_key.
  - intros Hb. apply build_None_iff. by apply build_None_iff in Hb.
Qed.

Lemma seq_and_clock_only_stamp_witness :
  build_telemetry_from_msg scenario_msg 9 1700000060%float
  = Some (<["timestamp" := VFloat 1700000060]>
            (<["seq" := VInt 9]>
               (default ∅ (build_telemetry_from_msg scenario_msg 1
                             1700000000%float)))).
Proof.
  exact (proj1 (seq_and_clock_only_stamp scenario_msg 1 1700000000%float
                  9 1700000060%float) _ eq_refl).
Defined.

(** ** The velocity fallback *)

Section FallbackProperties.
Variable float_pow : float → float → float.

Lemma velocity_fallback_skip t :
  Py.contains "velocity" t = true ∨
  (t !! "vx" = None ∧ t !! "vy" = None) →
  velocity_fallback float_pow t = t.
Proof.
  unfold velocity_fallback. intros [-> | [Hx Hy]]; [done |].
  unfold Py.contains. rewrite Hx, Hy. by rewrite andb_false_r.
Qed.

(** A record of a VFR_HUD or GPS_RAW_INT event has no horizontal
    components, and a position record has no [velocity]. *)
Lemma build_velocity_keys m seq now t :
  build_telemetry_from_msg m seq now = Some t →
  (get_type m ≠ "GLOBAL_POSITION_INT" → t !! "vx" = None ∧ t !! "vy" = None) ∧
  (get_type m = "GLOBAL_POSITION_INT" → t !! "velocity" = None).
Proof.
  intros Hb.
  assert (Hk : ∀ k, ¬ In k (record_keys (get_type m)) → t !! k = None).
  { intros k Hn. destruct (t !! k) as [v |] eqn:E; [| done].
    destruct Hn. apply list_elem_of_In. eapply build_keys; [done | by eexists]. }
  destruct (build_cases m seq now) as [[T E] | [[T E] | [[T E] | [_ E]]]];
    [| | | rewrite E in Hb; discriminate Hb]; rewrite T in Hk; split;
    try (intros Hne; congruence).
  - intros _. apply Hk. cbn. intuition discriminate.
  - intros _. split; apply Hk; cbn; intuition discriminate.
  - intros _. split; apply Hk; cbn; intuition discriminate.
Qed.

(** X6: running the velocity fallback twice is the same as running it
    once: a record that got its [velocity] is left alone, and a record the
    fallback could not change stays unchanged. *)
Theorem velocity_fallback_idempotent t :
  velocity_fallback float_pow (velocity_fallback float_pow t)
  = velocity_fallback float_pow t.
Proof.
  destruct (velocity_fallback_cases float_pow t) as [E | (_ & _ & Hs)].
  - by rewrite !E.
  - apply synthesize_velocity_ok in Hs as (vx & vy & _ & _ & E).
    rewrite E. apply velocity_fallback_skip. left.
    unfold Py.contains.
    by rewrite !lookup_delete_ne, lookup_insert_eq.
Qed.

(** X7: the fallback only ever changes position records: the record of a
    VFR_HUD or GPS_RAW_INT event is enqueued exactly as
    [build_telemetry_from_msg] returned it. *)
Theorem velocity_fallback_only_position m seq now t :
  build_telemetry_from_msg m seq now = Some t →
  get_type m ≠ "GLOBAL_POSITION_INT" →
  velocity_fallback float_pow t = t.
Proof.
  intros Hb Hne. apply velocity_fallback_skip. right.
  by apply (build_velocity_keys m seq now t Hb).
Qed.

(** X8: no record the reader enqueues carries both a [velocity] and a raw
    horizontal component [vx] or [vy]. *)
Theorem velocity_excludes_components m seq now t :
  build_telemetry_from_msg m seq now = Some t →
  let r := velocity_fallback float_pow t in
  is_Some (r !! "velocity") → r !! "vx" = None ∧ r !! "vy" = None.
Proof.
  intros Hb r Hv. unfold r in *.
  destruct (build_velocity_keys m seq now t Hb) as [Hother Hpos].
  destruct (decide (get_type m = "GLOBAL_POSITION_INT")) as [T | T].
  - destruct (velocity_fallback_cases float_pow t) as [E | (_ & _ & Hs)].
    + rewrite E, (Hpos T) in Hv. by destruct Hv.
    + apply synthesize_velocity_ok in Hs as (vx & vy & _ & _ & ->).
      split.
      * by rewrite lookup_delete_ne, lookup_delete_eq.
      * by rewrite lookup_delete_eq.
  - rewrite velocity_fallback_skip; [by apply Hother |].
    right. by apply Hother.
Qed.

End FallbackProperties.

Lemma velocity_fallback_only_position_witness :
  velocity_fallback sqrt_pow
    (default ∅ (build_telemetry_from_msg hud_msg 1 1700000000%float))
  = default ∅ (build_telemetry_from_msg hud_msg 1 1700000000%float).
Proof.
  apply (velocity_fallback_only_position sqrt_pow hud_msg 1 1700000000%float);
    [reflexivity | discriminate].
Defined.

Lemma velocity_excludes_components_witness :
  velocity_fallback sqrt_pow moving_record !! "vx" = None ∧
  velocity_fallback sqrt_pow moving_record !! "vy" = None.
Proof.
  apply (velocity_excludes_components sqrt_pow moving_msg 1 1700000000%float
           moving_record eq_refl).
  exists (VFloat 5). vm_compute. reflexivity.
Defined.

(** ** The queue *)

Section QueueMore.
Context {A : Type}.
Implicit Types (q : Queue A) (x : A).

(** X9: a queue whose capacity is zero or negative is unbounded: the
    reader's push always appends, and nothing is ever dropped. *)
Theorem enqueue_unbounded q (l : list A) :
  maxsize q <= 0 →
  items (foldl enqueue q l) = items q ++ l ∧
  maxsize (foldl enqueue q l) = maxsize q.
Proof.
  intros Hn. revert q Hn.
  induction l as [| x l IH]; intros q Hn.
  - by rewrite app_nil_r.
  - cbn [foldl]. rewrite (enqueue_room q x) by lia.
    destruct (IH (MkQueue (maxsize q) (items q ++ [x]))) as [Hi Hm]; [done |].
    rewrite Hi, Hm. cbn [items maxsize]. by rewrite <- app_assoc.
Qed.

(** X10: pushing any number of records into a bounded queue (capacity
    N > 0, at most N items) keeps the newest N of the old items followed by
    the new ones, in order, and drops the rest. *)
Theorem enqueue_keeps_newest q (l : list A) :
  0 < maxsize q → qsize q <= maxsize q →
  let n := Z.to_nat (maxsize q) in
  let all := items q ++ l in
  items (foldl enqueue q l) = drop (length all - n) all ∧
  length (items (foldl enqueue q l)) = (length all `min` n)%nat.
Proof.
  intros Hpos Hle n all.
  destruct (enqueue_all_items l q Hpos Hle) as [Hi _].
  fold n all in Hi. split; [done |].
  rewrite Hi, length_drop. lia.
Qed.

End QueueMore.

Lemma enqueue_unbounded_witness :
  items (foldl enqueue (MkQueue 0 [1; 2]) [3; 4; 5]) = [1; 2; 3; 4; 5].
Proof.
  destruct (enqueue_unbounded (MkQueue 0 [1; 2]) [3; 4; 5]) as [Hi _].
  - simpl. lia.
  - exact Hi.
Defined.

Lemma enqueue_keeps_newest_witness :
  items (foldl enqueue (MkQueue 3 [1; 2]) [3; 4; 5]) = [3; 4; 5].
Proof.
  destruct (enqueue_keeps_newest (MkQueue 3 [1; 2]) [3; 4; 5]) as [Hi _].
  - simpl. lia.
  - vm_compute. discriminate.
  - exact Hi.
Defined.

(** ** Runs of the bridge *)

Section RunProperties.
Variable float_pow : float → float → float.
Variables (topic : string) (rate_hz : float).

Abbreviation step := (bridge_step float_pow topic rate_hz).
Abbreviation run := (bridge_run float_pow topic rate_hz).

Lemma bridge_run_snoc st evs ev :
  run st (evs ++ [ev]) = step (run st evs) ev.
Proof. unfold bridge_run. by rewrite foldl_snoc. Qed.

Lemma bridge_run_cons st ev evs :
  run st (ev :: evs) = run (step st ev) evs.
Proof. done. Qed.

Lemma reader_step_queue st r :
  out_queue (reader_step float_pow st r)
  = match reader_record float_pow (seq st) r with
    | Some rec => enqueue (out_queue st) rec
    | None => out_queue st
    end.
Proof.
  destruct r as [| m now | e]; try done.
  unfold reader_step, reader_record. cbn [seq set_seq].
  destruct (build_telemetry_from_msg m _ now) as [t |]; [| done].
  by destruct (Py.truthy t).
Qed.

Lemma reader_step_stderr st r :
  stderr (reader_step float_pow st r)
  = stderr st ++ match r with
                 | RecvError e => ["[mav reader] error: " +:+ e]
                 | _ => []
                 end.
Proof.
  destruct r as [| m now | e]; try done.
  - by rewrite app_nil_r.
  - rewrite app_nil_r. unfold reader_step.
    destruct (build_telemetry_from_msg m _ now) as [t |]; [| done].
    by destruct (Py.truthy t).
Qed.

Lemma publisher_step_reader_vars st now :
  seq (publisher_step topic rate_hz st now) = seq st ∧
  stderr (publisher_step topic rate_hz st now) = stderr st ∧
  maxsize (out_queue (publisher_step topic rate_hz st now))
  = maxsize (out_queue st).
Proof.
  destruct (publisher_step_cases topic rate_hz st now)
    as [[_ ->] | (t & rest & _ & [[_ ->] | [_ ->]])]; done.
Qed.

Lemma publisher_step_ok st now :
  queue_ok (out_queue st) →
  queue_ok (out_queue (publisher_step topic rate_hz st now)).
Proof.
  intros Hok.
  destruct (publisher_step_cases topic rate_hz st now)
    as [[_ ->] | (t & rest & Hi & [[_ ->] | [_ ->]])]; [done | |];
    unfold queue_ok, qsize in *; cbn [out_queue set_queue maxsize items];
    intros Hpos; specialize (Hok Hpos); rewrite Hi in Hok; simpl in Hok; lia.
Qed.

Lemma bridge_step_ok st ev :
  queue_ok (out_queue st) → queue_ok (out_queue (step st ev)).
Proof.
  destruct ev as [r | now]; cbn [bridge_step].
  - apply reader_step_ok.
  - apply publisher_step_ok.
Qed.

Lemma bridge_step_maxsize st ev :
  maxsize (out_queue (step st ev)) = maxsize (out_queue st).
Proof.
  destruct ev as [r | now]; cbn [bridge_step].
  - rewrite reader_step_queue.
    destruct (reader_record float_pow (seq st) r); [| done].
    apply enqueue_maxsize.
  - apply publisher_step_reader_vars.
Qed.

Lemma bridge_run_ok st evs :
  queue_ok (out_queue st) →
  queue_ok (out_queue (run st evs)) ∧
  maxsize (out_queue (run st evs)) = maxsize (out_queue st).
Proof.
  intros Hok. induction evs as [| ev evs [IH1 IH2]] using rev_ind; [done |].
  rewrite bridge_run_snoc. split.
  - by apply bridge_step_ok.
  - by rewrite bridge_step_maxsize.
Qed.

Lemma bridge_init_ok queue_size : queue_ok (out_queue (bridge_init queue_size)).
Proof. unfold queue_ok, qsize. simpl. lia. Qed.

(** X11: with a positive queue size, the queue never holds more records
    than its capacity, at any point of any run of the bridge (reader and
    publisher iterations in any order). *)
Theorem queue_never_exceeds_capacity queue_size evs :
  0 < queue_size →
  let st := run (bridge_init queue_size) evs in
  maxsize (out_queue st) = queue_size ∧
  qsize (out_queue st) <= queue_size.
Proof.
  intros Hpos st.
  destruct (bridge_run_ok (bridge_init queue_size) evs
              (bridge_init_ok queue_size)) as [Hok Hm].
  fold st in Hok, Hm. cbn in Hm. split; [done |].
  unfold queue_ok in Hok. rewrite Hm in Hok. by apply Hok.
Qed.

Lemma reader_results_snoc evs ev :
  reader_results (evs ++ [ev])
  = reader_results evs ++ match ev with
                          | Reader r => [r]
                          | Publisher _ => []
                          end.
Proof.
  unfold reader_results. rewrite omap_app. by destruct ev.
Qed.

Lemma link_errors_snoc rs r :
  link_errors (rs ++ [r])
  = link_errors rs ++ match r with RecvError e => [e] | _ => [] end.
Proof. unfold link_errors. rewrite omap_app. by destruct r. Qed.


End RunProperties.

Lemma queue_never_exceeds_capacity_witness :
  qsize (out_queue two_hz_final) <= 200.
Proof.
  exact (proj2 (queue_never_exceeds_capacity sqrt_pow "drone/telemetry"
                  2%float 200 two_hz_run eq_refl)).
Defined.

(** ** Order of the records *)

Lemma sorted_sublist {A} (R : relation A) (l1 l2 : list A) :
  l1 `sublist_of` l2 → StronglySorted R l2 → StronglySorted R l1.
Proof.
  induction 1 as [| x l1 l2 Hsub IH | x l1 l2 Hsub IH]; intros Hs.
  - constructor.
  - apply StronglySorted_cons in Hs as [Hall Hs].
    apply StronglySorted_cons. split; [| by apply IH].
    rewrite Forall_forall in *. intros y Hy.
    apply Hall. by eapply elem_of_sublist.
  - apply StronglySorted_cons in Hs as [_ Hs]. by apply IH.
Qed.

Lemma enqueue_drops_prefix {A} (q : Queue A) (x : A) :
  queue_ok q → ∃ d, items (enqueue q x) = drop d (items q ++ [x]).
Proof.
  intros Hok.
  destruct (decide (0 < maxsize q ∧ maxsize q <= qsize q)) as [[Hpos Hge] | Hn].
  - specialize (Hok Hpos).
    destruct (enqueue_full q x Hpos) as (oldest & rest & Hi & ->); [lia |].
    exists 1%nat. by rewrite Hi.
  - exists 0%nat. by rewrite enqueue_room.
Qed.

Section OrderProperties.
Variable float_pow : float → float → float.
Variables (topic : string) (rate_hz : float).

Abbreviation step := (bridge_step float_pow topic rate_hz).
Abbreviation run := (bridge_run float_pow topic rate_hz).
Abbreviation accepted_by := (accepted float_pow topic rate_hz).

Lemma held_step st ev :
  queue_ok (out_queue st) →
  held (step st ev)
  `sublist_of` held st ++ match ev with
                          | Reader r =>
                              option_list (reader_record float_pow (seq st) r)
                          | Publisher _ => []
                          end.
Proof.
  intros Hok. unfold held. destruct ev as [r | now]; cbn [bridge_step].
  - destruct (reader_step_publisher float_pow st r) as [_ ->].
    rewrite reader_step_queue.
    destruct (reader_record float_pow (seq st) r) as [rec |]; cbn [option_list].
    + destruct (enqueue_drops_prefix (out_queue st) rec Hok) as [d ->].
      rewrite <- app_assoc. apply sublist_app; [done |]. apply sublist_drop.
    + by rewrite app_nil_r.
  - rewrite app_nil_r.
    destruct (publisher_step_cases topic rate_hz st now)
      as [[_ ->] | (t & rest & Hi & [[_ ->] | [_ ->]])]; [done | |];
      cbn [published out_queue set_queue items]; rewrite Hi.
    + apply sublist_app; [done |]. by apply sublist_cons.
    + by rewrite fmap_app, <- app_assoc.
Qed.

Lemma held_run evs : ∀ st,
  queue_ok (out_queue st) →
  held (run st evs) `sublist_of` held st ++ accepted_by st evs.
Proof.
  induction evs as [| ev evs IH]; intros st Hok.
  - cbn. by rewrite app_nil_r.
  - rewrite (bridge_run_cons float_pow). cbn [accepted].
    etrans; [apply IH; by apply bridge_step_ok |].
    rewrite app_assoc. apply sublist_app; [| done].
    by apply held_step.
Qed.

Lemma reader_record_seq n r rec :
  reader_record float_pow n r = Some rec → record_seq rec = n + 1.
Proof.
  destruct r as [| m now | e]; try done. unfold reader_record.
  destruct (build_telemetry_from_msg m (n + 1) now) as [t |] eqn:Hb; [| done].
  destruct (Py.truthy t); [| done]. intros [= <-].
  unfold record_seq. rewrite velocity_fallback_other by done.
  apply build_seq_timestamp in Hb as [-> _]. done.
Qed.

Lemma reader_record_msg n r rec :
  reader_record float_pow n r = Some rec → ∃ m now, r = RecvMsg m now.
Proof. destruct r as [| m now | e]; try done. by exists m, now. Qed.

Lemma bridge_step_seq st ev :
  seq st <= seq (step st ev).
Proof.
  destruct ev as [r | now]; cbn [bridge_step].
  - rewrite reader_step_seq. destruct r; lia.
  - destruct (publisher_step_reader_vars topic rate_hz st now) as (-> & _). lia.
Qed.

Lemma accepted_sorted evs : ∀ st,
  StronglySorted Z.lt (record_seq <$> accepted_by st evs) ∧
  Forall (λ z, seq st < z) (record_seq <$> accepted_by st evs).
Proof.
  induction evs as [| ev evs IH]; intros st.
  - cbn. split; constructor.
  - cbn [accepted]. destruct (IH (step st ev)) as [IHs IHf].
    pose proof (bridge_step_seq st ev) as Hmono.
    assert (Hf : Forall (λ z, seq st < z)
                        (record_seq <$> accepted_by (step st ev) evs)).
    { eapply Forall_impl; [exact IHf |]. intros z Hz. simpl in Hz. lia. }
    destruct ev as [r | now]; cbn [app]; [| done].
    destruct (reader_record float_pow (seq st) r) as [rec |] eqn:Hr;
      [change (option_list (Some rec)) with [rec]
      | change (option_list (@None (gmap string value))) with
          (@nil (gmap string value))];
      cbn [app]; [| done].
    rewrite fmap_cons, (reader_record_seq _ _ _ Hr).
    destruct (reader_record_msg _ _ _ Hr) as (m & now & ->).
    cbn [bridge_step] in IHf. rewrite reader_step_seq in IHf.
    split.
    + apply StronglySorted_cons. by split.
    + constructor; [lia | done].
Qed.

(** X13: records leave the bridge in the order they were accepted: in
    any run, the records published so far, followed by those still in the
    queue, are a subsequence of the records the reader enqueued; nothing is
    published twice, out of order, or without having been enqueued. *)
Theorem published_in_acceptance_order queue_size evs :
  held (run (bridge_init queue_size) evs)
  `sublist_of` accepted_by (bridge_init queue_size) evs.
Proof.
  apply (held_run evs (bridge_init queue_size) (bridge_init_ok queue_size)).
Qed.

(** X14: in any run, the [seq] values of the published records, followed
    by those of the queued records, are strictly increasing; gaps mark
    events that were rejected or records that were dropped. *)
Theorem published_seq_increasing queue_size evs :
  StronglySorted Z.lt
    (record_seq <$> held (run (bridge_init queue_size) evs)).
Proof.
  eapply sorted_sublist;
    [| apply (accepted_sorted evs (bridge_init queue_size))].
  apply fmap_sublist.
  apply (held_run evs (bridge_init queue_size) (bridge_init_ok queue_size)).
Qed.

(** X15: [last_pub] is the clock reading of the latest publish, and 0.0
    as long as nothing was published. *)
Theorem last_pub_tracks_latest_publish queue_size evs :
  let st := run (bridge_init queue_size) evs in
  last_pub st = default 0%float (pub_time <$> last (published st)).
Proof.
  induction evs as [| ev evs IH] using rev_ind; [done |].
  cbn zeta in *. rewrite (bridge_run_snoc float_pow).
  set (st := run (bridge_init queue_size) evs) in *.
  destruct ev as [r | now]; cbn [bridge_step].
  - destruct (reader_step_publisher float_pow st r) as [-> ->]. done.
  - destruct (publisher_step_cases topic rate_hz st now)
      as [[_ ->] | (t & rest & _ & [[_ ->] | [_ ->]])]; [done | done |].
    cbn [last_pub published]. by rewrite last_snoc.
Qed.

End OrderProperties.

(** X16: a configured rate that is not greater than 0.1 Hz (zero, a
    negative rate or NaN included) gives a publish interval of exactly 10
    seconds; the interval is never the result of a division by zero. *)
Theorem publish_interval_clamped rate_hz :
  PrimFloat.ltb 0.1%float rate_hz = false →
  publish_interval rate_hz = 10%float.
Proof.
  intros H. unfold publish_interval, Py.max. rewrite H. by vm_compute.
Qed.

Lemma publish_interval_clamped_witness :
  publish_interval 0%float = 10%float.
Proof. exact (publish_interval_clamped 0%float eq_refl). Defined.

(** ** Command line and MQTT client *)

Lemma main_call fs bridge_loop a :
  ∃ call,
    CLI.bridge_calls (CLI.main fs bridge_loop a) = [call] ∧
    call = CLI.BridgeCall (CLI.mav a)
             (CLI.MqttCfg (CLI.mqtt_host a) (CLI.mqtt_port a) (CLI.mqtt_user a)
                (CLI.read_password fs (CLI.mqtt_pass_file a)).1
                (CLI.tls_ca a) (CLI.tls_cert a) (CLI.tls_key a))
             (CLI.topic a) (CLI.rate a) (CLI.queue_size a) ∧
    CLI.out_stderr (CLI.main fs bridge_loop a)
    = (CLI.read_password fs (CLI.mqtt_pass_file a)).2
      ++ match bridge_loop call with
         | CLI.BridgeReturns => []
         | CLI.BridgeRaises e => ["[main] fatal error: " +:+ e]
         end ∧
    CLI.exit_code (CLI.main fs bridge_loop a)
    = match bridge_loop call with
      | CLI.BridgeReturns => None
      | CLI.BridgeRaises _ => Some 1
      end.
Proof.
  unfold CLI.main.
  destruct (CLI.read_password fs (CLI.mqtt_pass_file a)) as [pw errs].
  cbn [fst snd]. eexists. split_and!; [| reflexivity | |];
    destruct (bridge_loop _); cbn; by rewrite ?app_nil_r.
Qed.

(** X17: [main] calls [bridge_loop] exactly once, passing the URI, topic,
    rate and queue size of the arguments; it exits with status 1 exactly
    when [bridge_loop] raises, and then the last line on stderr is the
    fatal error. *)
Theorem main_runs_bridge_once fs bridge_loop a :
  ∃ call,
    CLI.bridge_calls (CLI.main fs bridge_loop a) = [call] ∧
    CLI.call_mav call = CLI.mav a ∧
    CLI.call_topic call = CLI.topic a ∧
    CLI.call_rate call = CLI.rate a ∧
    CLI.call_queue_size call = CLI.queue_size a ∧
    (CLI.exit_code (CLI.main fs bridge_loop a) = Some 1
     ↔ ∃ e, bridge_loop call = CLI.BridgeRaises e) ∧
    (bridge_loop call = CLI.BridgeReturns →
     CLI.exit_code (CLI.main fs bridge_loop a) = None) ∧
    (∀ e, bridge_loop call = CLI.BridgeRaises e →
          last (CLI.out_stderr (CLI.main fs bridge_loop a))
          = Some ("[main] fatal error: " +:+ e)).
Proof.
  destruct (main_call fs bridge_loop a) as (call & Hc & Hcall & Herr & Hexit).
  exists call. rewrite Hexit, Herr.
  split_and!; [exact Hc | by rewrite Hcall | by rewrite Hcall
              | by rewrite Hcall | by rewrite Hcall | | |].
  - destruct (bridge_loop call) as [| e]; split; try done.
    + by intros [e He].
    + intros _. by exists e.
  - by intros ->.
  - intros e ->. by rewrite last_snoc.
Qed.



Lemma main_runs_bridge_once_witness :
  CLI.exit_code (CLI.main CLI.missing_file
                   (λ _, CLI.BridgeRaises "connection refused")
                   CLI.example_args) = Some 1.
Proof.
  destruct (main_runs_bridge_once CLI.missing_file
              (λ _, CLI.BridgeRaises "connection refused") CLI.example_args)
    as (call & _ & _ & _ & _ & _ & Hx & _).
  apply Hx. by eexists.
Defined.

Lemma given_Some (o : option string) :
  MQTT.given o = true ↔ ∃ s, o = Some s ∧ s ≠ "".
Proof.
  unfold MQTT.given. destruct o as [s |].
  - destruct (String.eqb_spec s "") as [-> | Hne]; simpl.
    + split; [done |]. by intros (? & [= <-] & ?).
    + split; [intros _; by exists s | done].
  - split; [done |]. by intros (? & ? & _).
Qed.

Lemma init_calls h p u pw ca cert key cid :
  MQTT.calls (MQTT.init h p u pw ca cert key cid)
  = [MQTT.NewClient cid]
    ++ (if MQTT.given u then [MQTT.UsernamePwSet (default "" u) pw] else [])
    ++ (if MQTT.given ca then [MQTT.TlsSet (default "" ca) cert key] else []).
Proof.
  unfold MQTT.init. cbn [MQTT.calls].
  destruct (MQTT.given u), (MQTT.given ca); by rewrite <- ?app_assoc.
Qed.

Lemma init_sets_credentials h p u pw ca cert key cid u' pw' :
  MQTT.UsernamePwSet u' pw' ∈ MQTT.calls (MQTT.init h p u pw ca cert key cid)
  ↔ u = Some u' ∧ u' ≠ "" ∧ pw' = pw.
Proof.
  rewrite init_calls, !elem_of_app, list_elem_of_singleton.
  split.
  - intros [H | [H | H]]; [done | |].
    + destruct (MQTT.given u) eqn:Hg; [| by apply elem_of_nil in H].
      apply given_Some in Hg as (s & -> & Hne).
      apply list_elem_of_singleton in H. by injection H as -> ->.
    + destruct (MQTT.given ca); [| by apply elem_of_nil in H].
      by apply list_elem_of_singleton in H.
  - intros (-> & Hne & ->). right. left.
    assert (MQTT.given (Some u') = true) as -> by (apply given_Some; by eexists).
    by apply list_elem_of_singleton.
Qed.

(** X19: a new client gets credentials only when a non-empty user name
    is given (a password without a user name is not used), and TLS only
    when a CA file is given (a certificate or key without a CA file is not
    used); it starts out not connected. *)
Theorem credentials_and_tls_only_when_given h p u pw ca cert key cid :
  let c := MQTT.init h p u pw ca cert key cid in
  (∀ u' pw', MQTT.UsernamePwSet u' pw' ∈ MQTT.calls c
             ↔ u = Some u' ∧ u' ≠ "" ∧ pw' = pw) ∧
  (∀ ca' cert' key', MQTT.TlsSet ca' cert' key' ∈ MQTT.calls c
                     ↔ ca = Some ca' ∧ ca' ≠ "" ∧ cert' = cert ∧ key' = key) ∧
  MQTT.connected c = false.
Proof.
  intros c. split_and!; [| | done].
  - intros u' pw'. apply init_sets_credentials.
  - intros ca' cert' key'. unfold c.
    rewrite init_calls, !elem_of_app, list_elem_of_singleton.
    split.
    + intros [H | [H | H]]; [done | |].
      * destruct (MQTT.given u); [| by apply elem_of_nil in H].
        by apply list_elem_of_singleton in H.
      * destruct (MQTT.given ca) eqn:Hg; [| by apply elem_of_nil in H].
        apply given_Some in Hg as (s & -> & Hne).
        apply list_elem_of_singleton in H. by injection H as -> -> ->.
    + intros (-> & Hne & -> & ->). right. right.
      assert (MQTT.given (Some ca') = true) as ->
        by (apply given_Some; by eexists).
      by apply list_elem_of_singleton.
Qed.

(** X20: [publish] always hands the message to the client, exactly once
    and with the given QoS, whether or not the client is connected; it warns
    only if the client is not connected and the wait times out, and an
    exception of the client is logged, not raised. *)
Theorem publish_always_hands_off c w topic payload qos error :
  let c' := MQTT.publish c w topic payload qos error in
  MQTT.calls c' = MQTT.calls c ++ [MQTT.Publish topic payload qos] ∧
  MQTT.stderr c'
  = MQTT.stderr c ++ match error with
                     | Some e => ["[mqtt] publish exception: " +:+ e]
                     | None => []
                     end ∧
  MQTT.stdout c'
  = MQTT.stdout c
    ++ (if MQTT.connected c then []
        else match w with
             | MQTT.ConnectedInTime => ["[mqtt] connected"]
             | MQTT.WaitTimedOut =>
                 ["[mqtt] warning: not connected, publishing will queue locally"]
             end) ∧
  MQTT.connected c'
  = MQTT.connected c || match w with
                        | MQTT.ConnectedInTime => true
                        | MQTT.WaitTimedOut => false
                        end.
Proof.
  unfold MQTT.publish.
  destruct (MQTT.connected c) eqn:Hc, w, error;
    cbn; rewrite ?app_nil_r, ?Hc; done.
Qed.

Lemma callbacks_snoc c cbs cb :
  foldl MQTT.run_callback c (cbs ++ [cb])
  = MQTT.run_callback (foldl MQTT.run_callback c cbs) cb.
Proof. by rewrite foldl_snoc. Qed.

Lemma no_disconnect_snoc cbs cb :
  no_disconnect (cbs ++ [cb])
  ↔ no_disconnect cbs ∧ ∀ rc, cb ≠ MQTT.OnDisconnect rc.
Proof.
  unfold no_disconnect. split.
  - intros H. split.
    + intros rc Hin. apply (H rc). apply elem_of_app. by left.
    + intros rc ->. apply (H rc). apply elem_of_app. right.
      by apply list_elem_of_singleton.
  - intros [H1 H2] rc Hin. apply elem_of_app in Hin as [Hin | Hin].
    + by apply (H1 rc).
    + apply list_elem_of_singleton in Hin. by apply (H2 rc).
Qed.

(** X21: after any sequence of callbacks the client counts as connected
    exactly when some [on_connect] with [rc = 0] is followed by no
    [on_disconnect] (or it was connected before and no [on_disconnect]
    came); a failed connect attempt ([rc] not 0) does not change the
    flag. *)
Theorem connected_iff_connect_after_last_disconnect c cbs :
  MQTT.connected (foldl MQTT.run_callback c cbs) = true ↔
  (∃ pre post, cbs = pre ++ MQTT.OnConnect 0 :: post ∧ no_disconnect post) ∨
  (MQTT.connected c = true ∧ no_disconnect cbs).
Proof.
  induction cbs as [| cb cbs IH] using rev_ind.
  - cbn. split.
    + intros H. right. split; [done |]. intros rc Hin. by apply elem_of_nil in Hin.
    + intros [(pre & post & H & _) | [H _]]; [| done].
      by destruct pre.
  - rewrite callbacks_snoc.
    set (c1 := foldl MQTT.run_callback c cbs) in *.
    destruct cb as [rc | rc]; cbn [MQTT.run_callback].
    + unfold MQTT.on_connect. destruct (Z.eqb_spec rc 0) as [-> | Hrc].
      * cbn. split; [| done]. intros _. left. exists cbs, [].
        split; [done |]. intros rc Hin. by apply elem_of_nil in Hin.
      * cbn [MQTT.connected MQTT.print]. rewrite IH. split.
        -- intros [(pre & post & -> & Hp) | [Hc Hn]].
           ++ left. exists pre, (post ++ [MQTT.OnConnect rc]).
              split; [by rewrite <- app_assoc |].
              apply no_disconnect_snoc. by split.
           ++ right. split; [done |]. apply no_disconnect_snoc. by split.
        -- intros [(pre & post & Heq & Hp) | [Hc Hn]].
           ++ left. destruct post as [| x post _] using rev_ind.
              ** apply app_inj_tail in Heq as [_ [= ->]]. done.
              ** change (pre ++ MQTT.OnConnect 0 :: post ++ [x])
                   with (pre ++ (MQTT.OnConnect 0 :: post) ++ [x]) in Heq.
                 rewrite app_assoc in Heq.
                 apply app_inj_tail in Heq as [-> _].
                 exists pre, post. split; [done |].
                 by apply no_disconnect_snoc in Hp as [Hp _].
           ++ right. split; [done |].
              by apply no_disconnect_snoc in Hn as [Hn _].
    + cbn. split; [done |].
      intros [(pre & post & Heq & Hp) | [_ Hn]].
      * destruct post as [| x post _] using rev_ind.
        -- by apply app_inj_tail in Heq as [_ [=]].
        -- change (pre ++ MQTT.OnConnect 0 :: post ++ [x])
             with (pre ++ (MQTT.OnConnect 0 :: post) ++ [x]) in Heq.
           rewrite app_assoc in Heq.
           apply app_inj_tail in Heq as [_ <-].
           apply no_disconnect_snoc in Hp as [_ Hp]. by destruct (Hp rc).
      * apply no_disconnect_snoc in Hn as [_ Hn]. by destruct (Hn rc).
Qed.

(** X22: how the command line reaches the client: when no user name is
    given, the client built from [main]'s configuration is never given
    credentials, whatever the password file holds; when a user name is
    given and the password file cannot be read, the credentials are that
    user name with no password. *)
Theorem credentials_from_command_line fs bridge_loop a call :
  call ∈ CLI.bridge_calls (CLI.main fs bridge_loop a) →
  (MQTT.given (CLI.mqtt_user a) = false →
   ∀ u pw, MQTT.UsernamePwSet u pw ∉ MQTT.calls (MQTT.of_cfg (CLI.call_cfg call))) ∧
  (∀ u path e,
     CLI.mqtt_user a = Some u → u ≠ "" →
     CLI.mqtt_pass_file a = Some path → path ≠ "" →
     fs path = CLI.FileError e →
     MQTT.UsernamePwSet u None ∈ MQTT.calls (MQTT.of_cfg (CLI.call_cfg call))).
Proof.
  intros Hin.
  destruct (main_call fs bridge_loop a) as (call' & Hc & Hcall & _).
  rewrite Hc in Hin. apply list_elem_of_singleton in Hin. subst call'.
  rewrite Hcall. cbn [CLI.call_cfg]. unfold MQTT.of_cfg.
  cbn [CLI.host CLI.port CLI.username CLI.password CLI.cfg_tls_ca
       CLI.cfg_tls_cert CLI.cfg_tls_key].
  split.
  - intros Hg u pw Hm. apply init_sets_credentials in Hm as (Hu & Hne & _).
    assert (MQTT.given (CLI.mqtt_user a) = true)
      by (apply given_Some; by exists u).
    congruence.
  - intros u path e Hu Hne Hp Hpne Hfs.
    apply init_sets_credentials. split_and!; [done | done |].
    unfold CLI.read_password. rewrite Hp.
    apply String.eqb_neq in Hpne. by rewrite Hpne, Hfs.
Qed.

Lemma credentials_and_tls_only_when_given_witness :
  MQTT.UsernamePwSet "drone" (Some "s3cret")
  ∈ MQTT.calls (MQTT.init "cloud.example.com" 1883 (Some "drone")
                  (Some "s3cret") None None None "mav_to_mqtt").
Proof.
  apply (proj1 (credentials_and_tls_only_when_given "cloud.example.com" 1883
                  (Some "drone") (Some "s3cret") None None None "mav_to_mqtt")).
  split_and!; [reflexivity | discriminate | reflexivity].
Defined.

Lemma connected_iff_connect_after_last_disconnect_witness :
  MQTT.connected
    (foldl MQTT.run_callback
       (MQTT.init "localhost" 1883 None None None None None "mav_to_mqtt")
       [MQTT.OnDisconnect 7; MQTT.OnConnect 0; MQTT.OnConnect 5]) = true.
Proof.
  apply connected_iff_connect_after_last_disconnect.
  left. exists [MQTT.OnDisconnect 7], [MQTT.OnConnect 5].
  split; [reflexivity |].
  intros rc Hin. apply list_elem_of_singleton in Hin. discriminate Hin.
Defined.

Lemma credentials_from_command_line_witness :
  MQTT.UsernamePwSet "drone" None
  ∈ MQTT.calls
      (MQTT.of_cfg
         (CLI.MqttCfg "cloud.example.com" 1883 (Some "drone") None
            None None None)).
Proof.
  refine (proj2 (credentials_from_command_line CLI.missing_file
                   (λ _, CLI.BridgeReturns) CLI.example_args
                   (CLI.BridgeCall "udp:127.0.0.1:14550"
                      (CLI.MqttCfg "cloud.example.com" 1883 (Some "drone")
                         None None None None)
                      "drone/telemetry" 5%float 200) _)
            "drone" "./secrets/mqtt_pass.txt"
            "[Errno 2] No such file or directory"
            eq_refl _ eq_refl _ eq_refl).
  - vm_compute. apply list_elem_of_here.
  - discriminate.
  - discriminate.
Defined.
